(** * roomlogg-go: the sensor package (sensor/sensor.go)

    A shallow embedding of the USB temperature/humidity hub driver:
    the protocol codec ([getTempRequestBytes], [getSensorDataFromBytes])
    and the device session ([CheckDeviceWithoutQuery],
    [QueryDeviceSensors], [closeDevice]), with the properties the
    specification states about them. *)

From Stdlib Require Import ZArith QArith Qabs Qround Lqa Floats.SpecFloat
  Strings.Byte.
From stdpp Require Import base list strings.

Local Open Scope Z_scope.

(** ** Go run-time values *)

(** A run-time panic of the Go program itself. *)
Inductive panic : Type :=
| IndexOutOfRange (index length : nat)
| SliceBoundsOutOfRange (high capacity : nat)
| NilDereference.

Inductive outcome (A : Type) : Type :=
| Normal (a : A)
| Panics (p : panic).
Arguments Normal {A} a.
Arguments Panics {A} p.

#[export] Instance outcome_ret : MRet outcome := fun A a => Normal a.
#[export] Instance outcome_bind : MBind outcome := fun A B f m =>
  match m with
  | Normal a => f a
  | Panics p => Panics p
  end.

(** A Go slice: the [len] visible elements, and the elements of the
    backing array between [len] and [cap]. *)
Record slice (A : Type) : Type := Slice { elems : list A; spare : list A }.
Arguments Slice {A} elems spare.
Arguments elems {A} s.
Arguments spare {A} s.

Section Slices.
Context {A : Type}.

Definition len (s : slice A) : nat := length (elems s).
Definition cap (s : slice A) : nat := (length (elems s) + length (spare s))%nat.

(** [make([]T, n)]: [n] zero values, capacity [n]. *)
Definition make (n : nat) (zero : A) : slice A := Slice (replicate n zero) [].

(** [s[i]], panicking when [i] is not below [len(s)]. *)
Definition at_index (s : slice A) (i : nat) : outcome A :=
  match elems s !! i with
  | Some x => Normal x
  | None => Panics (IndexOutOfRange i (len s))
  end.

(** [s[i] = x], panicking when [i] is not below [len(s)]. *)
Definition store (s : slice A) (i : nat) (x : A) : outcome (slice A) :=
  if decide (i < len s)%nat
  then Normal (Slice (<[i := x]> (elems s)) (spare s))
  else Panics (IndexOutOfRange i (len s)).

(** [s[lo:hi]]: the bounds are checked against the capacity. *)
Definition reslice (s : slice A) (lo hi : nat) : outcome (slice A) :=
  if decide (lo <= hi <= cap s)%nat
  then Normal (Slice (take (hi - lo) (drop lo (elems s ++ spare s)))
                     (drop hi (elems s ++ spare s)))
  else Panics (SliceBoundsOutOfRange hi (cap s)).
End Slices.

(** ** Machine integers and float32 *)

Definition byte_to_Z (b : byte) : Z := Z.of_N (Byte.to_N b).

(** Arithmetic on [uint16] wraps modulo 2^16. *)
Definition wrap16 (z : Z) : Z := z mod 65536.

(** The conversion [int16(x)] of a [uint16]: same 16 bits, read in two's
    complement. *)
Definition int16 (x : Z) : Z := (x + 32768) mod 65536 - 32768.

(** IEEE 754 binary32, as the standard library specifies it. *)
Definition float32 : Type := spec_float.
Definition f32_prec : Z := 24.
Definition f32_emax : Z := 128.

(** The conversion [float32(n)] of an integer, rounding to nearest even. *)
Definition float32_of_Z (n : Z) : float32 :=
  binary_normalize f32_prec f32_emax n 0 false.

(** The division [x / y] on [float32]. *)
Definition f32_div (x y : float32) : float32 := SFdiv f32_prec f32_emax x y.

Definition f32_zero : float32 := S754_zero false.

(** The rational a finite [float32] stands for. *)
Definition f32_to_Q (x : float32) : option Q :=
  match x with
  | S754_zero _ => Some 0%Q
  | S754_finite s m e =>
      let n := if s then Z.neg m else Z.pos m in
      Some (if 0 <=? e then inject_Z (n * 2 ^ e)
            else Qmake n (Z.to_pos (2 ^ (- e))))
  | _ => None
  end.

(** ** The protocol codec *)

(** [type Sensor struct]. *)
Record Sensor : Type := mkSensor {
  Channel : Z;
  Temperature : float32;
  Humidity : byte;
  Absent : bool
}.

(** The decoder runs in a writer-and-panic monad: next to its outcome it
    yields the offsets of the response buffer it indexed, in order, the
    offending one included when it panics. *)
Definition Dec (A : Type) : Type := (list nat * outcome A)%type.

Definition offsets {A} (m : Dec A) : list nat := fst m.
Definition result {A} (m : Dec A) : outcome A := snd m.

#[export] Instance Dec_ret : MRet Dec := fun A a => ([], Normal a).
#[export] Instance Dec_bind : MBind Dec := fun A B f m =>
  match m with
  | (l, Normal a) => let '(l', r) := f a in (l ++ l', r)
  | (l, Panics p) => (l, Panics p)
  end.

(** An operation that touches no byte of the buffer. *)
Definition quiet {A} (o : outcome A) : Dec A := ([], o).

(** [response[i]], recorded. *)
Definition index (s : slice byte) (i : nat) : Dec byte := ([i], at_index s i).

(** Reads made through the window [response[lo:...]] are reads of
    [response] at [lo] further on. *)
Definition through {A} (lo : nat) (m : Dec A) : Dec A :=
  ((fun i => (lo + i)%nat) <$> fst m, snd m).

(** [binary.BigEndian.Uint16] of Go's encoding/binary:
<<
    _ = b[1] // bounds check hint to compiler
    return uint16(b[1]) | uint16(b[0])<<8
>> *)
Definition Uint16 (b : slice byte) : Dec Z :=
  _ ← index b 1;
  lo ← index b 1;
  hi ← index b 0;
  mret (Z.lor (byte_to_Z lo) (wrap16 (Z.shiftl (byte_to_Z hi) 8))).

(** The body of the loop of [getSensorDataFromBytes], up to the
    assignment to [sensor]. *)
Definition sensorOfChannel (response : slice byte) (c : nat) : Dec Sensor :=
  let channelDataStart := (1 + c * 3)%nat in
  first ← index response channelDataStart;
  if negb (Byte.eqb first x7f) then
    temperatureRaw ← through channelDataStart
      (window ← quiet (reslice response channelDataStart (channelDataStart + 2));
       Uint16 window);
    let temperatureSigned := int16 temperatureRaw in
    let temperature := f32_div (float32_of_Z temperatureSigned) (float32_of_Z 10) in
    humidity ← index response (channelDataStart + 2);
    mret {| Channel := Z.of_nat c;
            Temperature := temperature;
            Humidity := humidity;
            Absent := false |}
  else
    mret {| Channel := Z.of_nat c;
            Temperature := f32_zero;
            Humidity := x00;
            Absent := true |}.

(** [for c := ...; c < 7; c++ { ...; sensors[c] = sensor }], with [todo]
    iterations left. *)
Fixpoint channelLoop (response : slice byte) (todo c : nat)
    (sensors : slice (option Sensor)) : Dec (slice (option Sensor)) :=
  match todo with
  | O => mret sensors
  | S todo' =>
      sensor ← sensorOfChannel response c;
      sensors' ← quiet (store sensors c (Some sensor));
      channelLoop response todo' (S c) sensors'
  end.

(** [func getSensorDataFromBytes(response []byte) []*Sensor]; a [nil]
    pointer is [None]. *)
Definition getSensorDataFromBytes (response : slice byte)
    : Dec (slice (option Sensor)) :=
  channelLoop response 7 0 (make 7 None).

(** [func getTempRequestBytes() []byte]. *)
Definition getTempRequestBytes : outcome (slice byte) :=
  let b := make 64 x00 in
  b ← store b 0 x7b;
  b ← store b 1 x03;
  b ← store b 2 x40;
  b ← store b 3 x7d;
  mret b.

(** ** The big-endian signed reading of two bytes, as the specification
    words it *)

Definition signed16BE (hi lo : byte) : Z :=
  let u := 256 * byte_to_Z hi + byte_to_Z lo in
  if u <? 32768 then u else u - 65536.

(** ** float32 division by ten *)

(** [raw / 10] in float32 is the rational [raw / 10] up to a relative
    error of 2^-24, half a unit in the last place. *)
Definition tenth_close (raw : Z) : bool :=
  match f32_to_Q (f32_div (float32_of_Z raw) (float32_of_Z 10)) with
  | Some q =>
      Qle_bool (Qabs (q * 10 - inject_Z raw) * inject_Z 16777216)
               (Qabs (inject_Z raw))
  | None => false
  end.

(** [tenth_close] on the [n] integers from [z] on. *)
Fixpoint tenth_close_from (n : nat) (z : Z) : bool :=
  match n with
  | O => true
  | S n' => tenth_close z && tenth_close_from n' (z + 1)
  end.

(** A sample response: channel 0 at -5.0 degrees and 40 percent, channel 2
    at 21.5 degrees and 50 percent, no sensor on the other channels. *)
Definition sample_response : slice byte :=
  Slice ([x00; xff; xce; x28; x7f; x00; x00; x00; xd7; x32]
           ++ replicate 54 x7f) [].

(** ** The device session *)

(** A non-nil Go [error]; the [error] results below are [option error],
    [None] for [nil]. *)
Inductive error : Type := Err (msg : string).

(** [hid.DeviceInfo] of github.com/karalabe/hid, by the fields that
    identify a device. *)
Record DeviceInfo : Type := mkDeviceInfo {
  Path : string;
  VendorID : Z;
  ProductID : Z
}.

(** [*hid.Device]: [None] is the nil pointer. *)
Definition Device : Type := option nat.

(** The lines the package logs, by call site. *)
Inductive logline : Type :=
| LogOpening (deviceInfo : list DeviceInfo)
| LogOpenFailed (err : error)
| LogWriting (requestBytes : list byte)
| LogWriteFailed (err : error)
| LogWrote (writtenBytes : Z)
| LogReadFailed (err : error)
| LogReadResult (readBytes : Z) (response : list byte)
| LogClosing
| LogCloseFailed
| LogQueryFailed
| LogNoSensor (channel : Z)
| LogReading (channel : Z) (temperature : float32) (humidity : byte).

(** What the package asks of the outside: the mutex [usbLock], the hid
    library, the clock and the logger. *)
Inductive op : Type :=
| Lock
| Unlock
| Open (info : DeviceInfo)
| Write (device : Device) (b : list byte)
| Sleep (milliseconds : Z)
| Read (device : Device) (size : nat)
| Close (device : Device)
| Log (line : logline).

(** What each operation gives back. A read gives the bytes the library
    put into the buffer next to its two results. *)
Definition answer (o : op) : Type :=
  match o with
  | Open _ => (Device * option error)%type
  | Write _ _ => (Z * option error)%type
  | Read _ _ => (list byte * Z * option error)%type
  | Close _ => option error
  | Lock | Unlock | Sleep _ | Log _ => unit
  end.

(** A Go function body as a tree of operations. Its leaves: a normal
    return, a panic on its way up the stack, or [os.Exit]. *)
Inductive prog (A : Type) : Type :=
| Ret (a : A)
| Throw (p : panic)
| Exit (code : Z)
| Vis (o : op) (k : answer o → prog A).
Arguments Ret {A} a.
Arguments Throw {A} p.
Arguments Exit {A} code.
Arguments Vis {A} o k.

Fixpoint bind {A B} (m : prog A) (f : A → prog B) : prog B :=
  match m with
  | Ret a => f a
  | Throw p => Throw p
  | Exit c => Exit c
  | Vis o k => Vis o (fun r => bind (k r) f)
  end.

#[export] Instance prog_ret : MRet prog := fun A a => Ret a.
#[export] Instance prog_bind : MBind prog := fun A B f m => bind m f.

Definition call (o : op) : prog (answer o) := Vis o Ret.

Definition lift {A} (o : outcome A) : prog A :=
  match o with
  | Normal a => Ret a
  | Panics p => Throw p
  end.

(** [defer deferred; body]: the deferred call runs when the body returns
    and when it panics, not when the process exits. *)
Fixpoint defer {A} (deferred : prog unit) (body : prog A) : prog A :=
  match body with
  | Ret a => bind deferred (fun _ => Ret a)
  | Throw p => bind deferred (fun _ => Throw p)
  | Exit c => Exit c
  | Vis o k => Vis o (fun r => defer deferred (k r))
  end.

(** [log.Fatalln] and [log.Fatal]: the line, then [os.Exit(1)]. *)
Definition Fatalln {A} (line : logline) : prog A :=
  _ ← call (Log line); Exit 1.

(** The nil slice. *)
Definition nilSlice {A} : slice A := Slice [] [].

(** The buffer after the library copied [data] into it: never more than
    [len] bytes, the rest as it was. *)
Definition fill (buf : slice byte) (data : list byte) : slice byte :=
  Slice (take (len buf) (data ++ drop (length data) (elems buf))) (spare buf).

(** [deviceInfo[0]]. *)
Definition first_info (deviceInfo : list DeviceInfo) : prog DeviceInfo :=
  match deviceInfo with
  | info :: _ => Ret info
  | [] => Throw (IndexOutOfRange 0 0)
  end.

(** [func closeDevice(device *hid.Device)]. *)
Definition closeDevice (device : Device) : prog unit :=
  _ ← call (Log LogClosing);
  err ← call (Close device);
  match err with
  | Some _ => Fatalln LogCloseFailed
  | None => Ret tt
  end.

(** [func CheckDeviceWithoutQuery(deviceInfo []hid.DeviceInfo) bool]. *)
Definition CheckDeviceWithoutQuery (deviceInfo : list DeviceInfo) : prog bool :=
  let valid := true in
  _ ← call Lock;
  info ← first_info deviceInfo;
  '(device, err) ← call (Open info);
  let valid := match err with Some _ => false | None => valid end in
  _ ← closeDevice device;
  _ ← call Unlock;
  Ret valid.

(** [func QueryDeviceSensors(deviceInfo []hid.DeviceInfo) ([]*Sensor, error)]. *)
Definition QueryDeviceSensors (deviceInfo : list DeviceInfo)
    : prog (slice (option Sensor) * option error) :=
  _ ← call (Log (LogOpening deviceInfo));
  _ ← call Lock;
  info ← first_info deviceInfo;
  '(device, err) ← call (Open info);
  match err with
  | Some e =>
      _ ← call (Log (LogOpenFailed e));
      Ret (nilSlice, Some e)
  | None =>
      defer (call Unlock)
        (defer (closeDevice device)
           (requestBytes ← lift getTempRequestBytes;
            _ ← call (Log (LogWriting (elems requestBytes)));
            '(writtenBytes, err) ← call (Write device (elems requestBytes));
            match err with
            | Some e =>
                _ ← call (Log (LogWriteFailed e));
                Ret (nilSlice, Some e)
            | None =>
                _ ← call (Log (LogWrote writtenBytes));
                _ ← call (Sleep 500);
                let response := make 64 x00 in
                '(data, readBytes, err) ← call (Read device (len response));
                let response := fill response data in
                match err with
                | Some e =>
                    _ ← call (Log (LogReadFailed e));
                    Ret (nilSlice, Some e)
                | None =>
                    _ ← call (Log (LogReadResult readBytes (elems response)));
                    sensorData ← lift (result (getSensorDataFromBytes response));
                    Ret (sensorData, None)
                end
            end))
  end.

(** The loop of [QueryAndPrintOnce]: one line per sensor; reading a
    field through a nil pointer panics. *)
Fixpoint printSensors (sensors : list (option Sensor)) : prog unit :=
  match sensors with
  | [] => Ret tt
  | None :: _ => Throw NilDereference
  | Some sensor :: rest =>
      _ ← call (Log (if Absent sensor
                     then LogNoSensor (Channel sensor)
                     else LogReading (Channel sensor) (Temperature sensor)
                            (Humidity sensor)));
      printSensors rest
  end.

(** [func QueryAndPrintOnce(deviceInfo []hid.DeviceInfo)]. *)
Definition QueryAndPrintOnce (deviceInfo : list DeviceInfo) : prog unit :=
  '(sensors, err) ← QueryDeviceSensors deviceInfo;
  match err with
  | Some _ => Fatalln LogQueryFailed
  | None => printSensors (elems sensors)
  end.

(** ** One call at a time: running a body against a device *)

(** How a call ends. *)
Inductive stop : Type :=
| Deadlock              (* Lock on the mutex this call can no longer get *)
| UnlockOfUnlocked.     (* fatal error: sync: unlock of unlocked mutex *)

Inductive ending (A : Type) : Type :=
| Returns (a : A)
| PanicsWith (p : panic)
| Exits (code : Z)
| Stops (s : stop).
Arguments Returns {A} a.
Arguments PanicsWith {A} p.
Arguments Exits {A} code.
Arguments Stops {A} s.

(** What an operation does to the mutex, held when [locked]; [None]
    when it cannot go on: [Lock] waits while the mutex is held, [Unlock]
    of a free mutex is a fatal error. *)
Definition mutex_step (o : op) (locked : bool) : option bool :=
  match o with
  | Lock => if locked then None else Some true
  | Unlock => if locked then Some false else None
  | _ => Some locked
  end.

Definition stop_of (o : op) : stop :=
  match o with
  | Unlock => UnlockOfUnlocked
  | _ => Deadlock
  end.

(** The hid library with the device behind it, as a state machine over
    some world [W]. It answers every call with values of the call's Go
    result types; a call that panics inside the library, as a [Close] that
    dereferences a nil receiver does, is not among these answers, so a run
    says what the package does with an answer once the library gives
    one. *)
Record Hid (W : Type) : Type := mkHid {
  hid_open : DeviceInfo → W → (Device * option error) * W;
  hid_write : Device → list byte → W → (Z * option error) * W;
  hid_read : Device → nat → W → (list byte * Z * option error) * W;
  hid_close : Device → W → option error * W
}.
Arguments hid_open {W} h.
Arguments hid_write {W} h.
Arguments hid_read {W} h.
Arguments hid_close {W} h.

(** A call's run: the operations it performed, in order, the mutex and
    the world it leaves, and its ending. *)
Record run_result (W A : Type) : Type := mkRun {
  events : list op;
  usbLock : bool;
  world : W;
  end_of : ending A
}.
Arguments mkRun {W A} events usbLock world end_of.
Arguments events {W A} r.
Arguments usbLock {W A} r.
Arguments world {W A} r.
Arguments end_of {W A} r.

Section Run.
Context {W : Type} (h : Hid W).

(** The answer of the outside to an operation. *)
Definition respond (o : op) (w : W) : answer o * W :=
  match o return answer o * W with
  | Open info => hid_open h info w
  | Write device b => hid_write h device b w
  | Read device n => hid_read h device n w
  | Close device => hid_close h device w
  | Lock | Unlock | Sleep _ | Log _ => (tt, w)
  end.

(** One operation on the mutex (held when [locked]) and the world. *)
Definition perform (o : op) (locked : bool) (w : W)
    : (answer o * bool * W) + stop :=
  match mutex_step o locked with
  | Some locked' => let '(r, w') := respond o w in inl (r, locked', w')
  | None => inr (stop_of o)
  end.

Fixpoint run {A} (p : prog A) (locked : bool) (w : W) : run_result W A :=
  match p with
  | Ret a => mkRun [] locked w (Returns a)
  | Throw e => mkRun [] locked w (PanicsWith e)
  | Exit c => mkRun [] locked w (Exits c)
  | Vis o k =>
      match perform o locked w with
      | inl (r, locked', w') =>
          let rest := run (k r) locked' w' in
          mkRun (o :: events rest) (usbLock rest) (world rest) (end_of rest)
      | inr s => mkRun [] locked w (Stops s)
      end
  end.
End Run.

(** A device that gives the same answers every time. *)
Definition scripted (open_answer : Device * option error)
    (write_answer : Z * option error)
    (read_answer : list byte * Z * option error)
    (close_answer : option error) : Hid unit :=
  {| hid_open := fun _ w => (open_answer, w);
     hid_write := fun _ _ w => (write_answer, w);
     hid_read := fun _ _ w => (read_answer, w);
     hid_close := fun _ w => (close_answer, w) |}.

Definition is_close (o : op) : bool :=
  match o with Close _ => true | _ => false end.
Definition is_unlock (o : op) : bool :=
  match o with Unlock => true | _ => false end.
Definition is_transfer (o : op) : bool :=
  match o with Write _ _ | Read _ _ => true | _ => false end.

Definition hub : DeviceInfo := mkDeviceInfo "/dev/hidraw0" 1155 22352.

(** The bytes of the request frame. *)
Definition frame : list byte := [x7b; x03; x40; x7d] ++ replicate 60 x00.

(** The operations of [QueryDeviceSensors] up to the write. *)
Definition upto_write (info : DeviceInfo) (rest : list DeviceInfo)
    (device : Device) : list op :=
  [Log (LogOpening (info :: rest)); Lock; Open info;
   Log (LogWriting frame); Write device frame].

(** The operations of the two deferred calls, by the answer of the
    close. *)
Definition deferred_ops (device : Device) (cerr : option error) : list op :=
  [Log LogClosing; Close device]
    ++ match cerr with None => [Unlock] | Some _ => [Log LogCloseFailed] end.

(** How a run ends after the deferred calls, by the answer of the
    close. *)
Definition after_deferred {A} (cerr : option error) (a : A) : bool * ending A :=
  match cerr with
  | None => (false, Returns a)
  | Some _ => (true, Exits 1)
  end.

(** ** Several calls at once *)

(** A goroutine running one function body. *)
Inductive goroutine : Type :=
| Go (A : Type) (body : prog A).
Arguments Go {A} body.

(** A goroutine that panicked or called [os.Exit] ends the process. *)
Definition crashed (g : goroutine) : Prop :=
  match g with
  | Go (Throw _) | Go (Exit _) => True
  | _ => False
  end.

(** The process: the mutex [usbLock] and its goroutines. *)
Record process : Type := mkProcess {
  locked : bool;
  goroutines : list goroutine
}.

(** One step of the process: some goroutine performs its next operation,
    which the mutex must allow; the outside answers the operation as it
    likes. *)
Inductive step : process → nat * op → process → Prop :=
| step_op i {A} o (k : answer o → prog A) (r : answer o) l l' gs :
    gs !! i = Some (Go (Vis o k)) →
    Forall (fun g => ¬ crashed g) gs →
    mutex_step o l = Some l' →
    step (mkProcess l gs) (i, o) (mkProcess l' (<[i := Go (k r)]> gs)).

Inductive execution : process → list (nat * op) → process → Prop :=
| exec_done p : execution p [] p
| exec_step p e p' tr p'' :
    step p e p' → execution p' tr p'' → execution p (e :: tr) p''.

(** The operations on the device: open, write, delay, read, close. *)
Definition device_op (o : op) : bool :=
  match o with
  | Open _ | Write _ _ | Sleep _ | Read _ _ | Close _ => true
  | Lock | Unlock | Log _ => false
  end.

(** The goroutines of the device operations of a trace, in order. *)
Definition owners (tr : list (nat * op)) : list nat :=
  fst <$> filter (fun e => device_op (snd e) = true) tr.

(** No goroutine comes back after another one: a sequence with [i], later
    [j], later [i] again has [j = i]. *)
Definition serial (l : list nat) : Prop :=
  ∀ l1 l2 l3 l4 i j, l = l1 ++ i :: l2 ++ j :: l3 ++ i :: l4 → j = i.

(** A goroutine that runs one call of the package. *)
Definition is_call (g : goroutine) : Prop :=
  ∃ deviceInfo,
    g = Go (QueryDeviceSensors deviceInfo)
    ∨ g = Go (CheckDeviceWithoutQuery deviceInfo).

(** Where a call stands with the mutex. *)
Inductive phase : Type := Before | Holding | Done.

(** A body keeps the locking discipline from a phase on: before it locks
    and after it unlocks it only logs, it locks once, and it never locks
    while holding. *)
Fixpoint follows {A} (ph : phase) (p : prog A) : Prop :=
  match p with
  | Vis o k =>
      match ph, o with
      | Before, Log _ => ∀ r, follows Before (k r)
      | Before, Lock => ∀ r, follows Holding (k r)
      | Holding, Unlock => ∀ r, follows Done (k r)
      | Holding, Lock => False
      | Holding, _ => ∀ r, follows Holding (k r)
      | Done, Log _ => ∀ r, follows Done (k r)
      | _, _ => False
      end
  | _ => True
  end.

Definition follows_g (ph : phase) (g : goroutine) : Prop :=
  match g with Go p => follows ph p end.

(** What holds of a process after some steps, [hist] being the
    goroutines of the device operations so far and [phs] the phase of
    every goroutine: at most one goroutine holds the mutex, which is then
    locked; a goroutine that has not locked yet has touched no device; the
    holder, once it has touched the device, is the last one that did. *)
Record invariant (p : process) (hist : list nat) (phs : list phase) : Prop := {
  inv_follows : Forall2 follows_g phs (goroutines p);
  inv_one : ∀ i j, phs !! i = Some Holding → phs !! j = Some Holding → i = j;
  inv_locked : ∀ i, phs !! i = Some Holding → locked p = true;
  inv_before : ∀ i, phs !! i = Some Before → i ∉ hist;
  inv_last : ∀ i, phs !! i = Some Holding → i ∈ hist → last hist = Some i;
  inv_serial : serial hist
}.

(** Two calls at once, and one way they can go: the query logs, the
    check takes the mutex first and finishes, then the query runs and its
    write fails. *)
Definition two_calls : list goroutine :=
  [Go (QueryDeviceSensors [hub]); Go (CheckDeviceWithoutQuery [hub])].

Definition two_calls_trace : list (nat * op) :=
  [(0, Log (LogOpening [hub])); (1, Lock); (1, Open hub);
   (1, Log LogClosing); (1, Close (Some 1)); (1, Unlock); (0, Lock);
   (0, Open hub); (0, Log (LogWriting frame)); (0, Write (Some 2) frame);
   (0, Log (LogWriteFailed (Err "hidapi: write failed")));
   (0, Log LogClosing); (0, Close (Some 2)); (0, Unlock)]%nat.

(** ** More on the codec *)

(** What the decoder needs of channel [c]: the first byte of its slot,
    and the whole slot unless that byte is the sentinel. *)
Definition slot_readable (response : slice byte) (c : nat) : Prop :=
  ∃ b, elems response !! (1 + 3 * c)%nat = Some b
       ∧ (b = x7f ∨ (3 + 3 * c < len response)%nat).

(** A temperature in tenths of a degree, rounded to the nearest integer. *)
Definition tenths (t : float32) : option Z :=
  match f32_to_Q t with
  | Some q => Some (Qfloor (q * 10 + (1 # 2))%Q)
  | None => None
  end.

(** A 22-byte buffer that shares with [sample_response] the slot of
    channel 1 and nothing else. *)
Definition other_response : slice byte :=
  Slice (replicate 4 x11 ++ [x7f; x00; x00] ++ replicate 15 xee) [].

(** A response with the slot of channel 0 of [sample_response] on
    channel 3, and no other sensor. *)
Definition moved_response : slice byte :=
  Slice (replicate 10 x7f ++ [xff; xce; x28] ++ replicate 51 x7f) [].

(** ** More on the session *)

(** The line [QueryAndPrintOnce] prints for a sensor. *)
Definition line_of (sensor : Sensor) : logline :=
  if Absent sensor
  then LogNoSensor (Channel sensor)
  else LogReading (Channel sensor) (Temperature sensor) (Humidity sensor).

(** A run followed by another: the second starts from the mutex and the
    world the first one left, and only when the first one returned. *)
Definition run_then {W A B} (r : run_result W A)
    (next : A → bool → W → run_result W B) : run_result W B :=
  match end_of r with
  | Returns a =>
      let r' := next a (usbLock r) (world r) in
      mkRun (events r ++ events r') (usbLock r') (world r') (end_of r')
  | PanicsWith p => mkRun (events r) (usbLock r) (world r) (PanicsWith p)
  | Exits c => mkRun (events r) (usbLock r) (world r) (Exits c)
  | Stops s => mkRun (events r) (usbLock r) (world r) (Stops s)
  end.

(** The device operations of a run, in order. *)
Definition device_ops (l : list op) : list op :=
  filter (fun o => device_op o = true) l.

(** ** More on several calls at once *)

(** No operation on the mutex among the events [b]. *)
Definition lock_free (b : list (nat * op)) : Prop :=
  ∀ j o, (j, o) ∈ b → o ≠ Lock ∧ o ≠ Unlock.

(** After the events [hist] goroutine [i] holds the mutex: it locked it,
    and nobody has locked or unlocked since. *)
Definition holds (i : nat) (hist : list (nat * op)) : Prop :=
  ∃ a b, hist = a ++ (i, Lock) :: b ∧ lock_free b.

(** Every device operation of a trace is made by the goroutine that
    holds the mutex at that point. *)
Definition guarded (tr : list (nat * op)) : Prop :=
  ∀ tr1 i o tr2,
    tr = tr1 ++ (i, o) :: tr2 → device_op o = true → holds i tr1.

(** ** Proof automation *)

(** Both sides are the same list up to the nesting of [++]. *)
Ltac reassoc :=
  repeat first [rewrite <- app_assoc | rewrite <- app_comm_cons]; reflexivity.

(** One operation of goroutine [i], answered by [r]. *)
Ltac perform_step i ans :=
  eapply exec_step;
  [ eapply (step_op i) with (r := ans);
    [ reflexivity | repeat constructor; exact (fun H => H) | reflexivity ]
  | cbn [list_insert] ].

(** * Properties *)

(** ** Properties of the codec *)

Section CodecFacts.
Implicit Types (response : slice byte) (c i : nat) (b : byte).

Lemma eqb_x7f_false b : b ≠ x7f → Byte.eqb b x7f = false.
Proof.
  intros Hne. destruct (Byte.eqb b x7f) eqn:E; [|done].
  by apply byte_dec_bl in E.
Qed.

Lemma Uint16_window (w : slice byte) hi lo :
  elems w !! 0%nat = Some hi → elems w !! 1%nat = Some lo →
  Uint16 w =
    ([1; 1; 0]%nat,
     Normal (Z.lor (byte_to_Z lo) (wrap16 (Z.shiftl (byte_to_Z hi) 8)))).
Proof.
  intros Hhi Hlo. unfold Uint16, index, at_index.
  cbn [mbind Dec_bind]. rewrite Hlo, Hhi. reflexivity.
Qed.

Lemma reslice_window response lo b0 b1 :
  elems response !! lo = Some b0 →
  elems response !! S lo = Some b1 →
  ∃ w, reslice response lo (lo + 2) = Normal w
       ∧ elems w !! 0%nat = Some b0 ∧ elems w !! 1%nat = Some b1.
Proof.
  intros H0 H1. unfold reslice.
  assert (S lo < length (elems response))%nat by by eapply lookup_lt_Some.
  rewrite decide_True by (unfold cap; lia).
  eexists; split; [reflexivity|]. cbn [elems].
  replace (lo + 2 - lo)%nat with 2%nat by lia.
  rewrite !lookup_take_lt, !lookup_drop by lia.
  rewrite Nat.add_0_r, Nat.add_1_r.
  split; by apply lookup_app_l_Some.
Qed.

Lemma sensorOfChannel_absent response c :
  elems response !! (1 + c * 3)%nat = Some x7f →
  sensorOfChannel response c =
    ([(1 + c * 3)%nat],
     Normal (mkSensor (Z.of_nat c) f32_zero x00 true)).
Proof.
  intros H. unfold sensorOfChannel, index, at_index. rewrite H.
  reflexivity.
Qed.

Lemma sensorOfChannel_present response c b0 b1 b2 :
  elems response !! (1 + c * 3)%nat = Some b0 →
  elems response !! (2 + c * 3)%nat = Some b1 →
  elems response !! (3 + c * 3)%nat = Some b2 →
  b0 ≠ x7f →
  sensorOfChannel response c =
    ([1 + c * 3; 2 + c * 3; 2 + c * 3; 1 + c * 3; 3 + c * 3]%nat,
     Normal (mkSensor (Z.of_nat c)
               (f32_div
                  (float32_of_Z
                     (int16 (Z.lor (byte_to_Z b1)
                               (wrap16 (Z.shiftl (byte_to_Z b0) 8)))))
                  (float32_of_Z 10))
               b2 false)).
Proof.
  intros H0 H1 H2 Hne.
  destruct (reslice_window response _ _ _ H0 H1) as (w & Hw & Hw0 & Hw1).
  unfold sensorOfChannel, index, at_index. rewrite H0.
  cbn [mbind Dec_bind]. rewrite (eqb_x7f_false _ Hne). cbn [negb].
  rewrite Hw. unfold quiet. cbn [mbind Dec_bind].
  rewrite (Uint16_window _ _ _ Hw0 Hw1).
  replace (1 + c * 3 + 2)%nat with (3 + c * 3)%nat by lia.
  rewrite H2. unfold through. cbn [fst snd fmap list_fmap app mret Dec_ret].
  cbn [mbind Dec_bind app].
  replace (1 + c * 3 + 1)%nat with (2 + c * 3)%nat by lia.
  replace (1 + c * 3 + 0)%nat with (1 + c * 3)%nat by lia.
  reflexivity.
Qed.

(** Three bytes of the buffer are enough for one channel. *)
Lemma sensorOfChannel_total response c :
  (3 + c * 3 < len response)%nat →
  ∃ log s, sensorOfChannel response c = (log, Normal s)
           ∧ Forall (λ o, c * 3 < o ≤ 3 + c * 3)%nat log
           ∧ Channel s = Z.of_nat c.
Proof.
  intros Hlen. unfold len in Hlen.
  destruct (lookup_lt_is_Some_2 (elems response) (1 + c * 3)) as [b0 H0]; [lia|].
  destruct (lookup_lt_is_Some_2 (elems response) (2 + c * 3)) as [b1 H1]; [lia|].
  destruct (lookup_lt_is_Some_2 (elems response) (3 + c * 3)) as [b2 H2]; [lia|].
  destruct (Byte.eqb b0 x7f) eqn:E;
    [apply byte_dec_bl in E as -> | apply Byte.eqb_false in E as Hne].
  - rewrite (sensorOfChannel_absent _ _ H0).
    do 2 eexists; split_and!; [reflexivity| |reflexivity].
    repeat constructor; lia.
  - rewrite (sensorOfChannel_present _ _ _ _ _ H0 H1 H2 Hne).
    do 2 eexists; split_and!; [reflexivity| |reflexivity].
    repeat constructor; lia.
Qed.

Lemma channelLoop_spec response todo : ∀ c (sensors : slice (option Sensor)),
  (c + todo ≤ len sensors)%nat →
  (3 * (c + todo) < len response)%nat →
  ∃ log out,
    channelLoop response todo c sensors = (log, Normal out)
    ∧ Forall (λ o, 3 * c < o ≤ 3 * (c + todo))%nat log
    ∧ spare out = spare sensors
    ∧ length (elems out) = length (elems sensors)
    ∧ (∀ i, (i < c ∨ c + todo ≤ i)%nat → elems out !! i = elems sensors !! i)
    ∧ (∀ i, (c ≤ i < c + todo)%nat →
         ∃ l s, sensorOfChannel response i = (l, Normal s)
                ∧ elems out !! i = Some (Some s)).
Proof.
  induction todo as [|todo IH]; intros c sensors Hs Hr.
  - exists [], sensors. cbn. split_and!; try done. intros i Hi; lia.
  - destruct (sensorOfChannel_total response c) as (l & s & Hc & Hl & _); [lia|].
    cbn [channelLoop]. rewrite Hc. cbn [mbind Dec_bind]. unfold store, quiet.
    rewrite decide_True by lia. cbn [mbind Dec_bind].
    set (sensors' := Slice (<[c:=Some s]> (elems sensors)) (spare sensors)).
    destruct (IH (S c) sensors') as (log & out & Hloop & Hlog & Hsp & Hlen & Hout & Hin).
    { unfold len, sensors'. cbn [elems]. rewrite length_insert. unfold len in Hs. lia. }
    { lia. }
    rewrite Hloop. cbn [app].
    exists (l ++ log), out. split_and!.
    + reflexivity.
    + apply Forall_app; split; eapply Forall_impl; eauto; cbn; lia.
    + by rewrite Hsp.
    + rewrite Hlen. unfold sensors'. cbn [elems]. by rewrite length_insert.
    + intros i Hi. rewrite Hout by lia. unfold sensors'. cbn [elems].
      apply list_lookup_insert_ne. lia.
    + intros i Hi. destruct (decide (i = c)) as [->|Hne].
      * exists l, s. split; [done|]. rewrite Hout by lia.
        unfold sensors'. cbn [elems]. apply list_lookup_insert_eq.
        unfold len in Hs. lia.
      * apply Hin. lia.
Qed.

Lemma getSensorDataFromBytes_spec response :
  (22 ≤ len response)%nat →
  ∃ log out,
    getSensorDataFromBytes response = (log, Normal out)
    ∧ Forall (λ o, 1 ≤ o ≤ 21)%nat log
    ∧ spare out = []
    ∧ length (elems out) = 7%nat
    ∧ (∀ c, (c < 7)%nat →
         ∃ l s, sensorOfChannel response c = (l, Normal s)
                ∧ elems out !! c = Some (Some s)).
Proof.
  intros Hlen.
  destruct (channelLoop_spec response 7 0 (make 7 None))
    as (log & out & Hrun & Hlog & Hsp & Hl & _ & Hin); [cbn; lia | lia |].
  exists log, out. split_and!; try done.
  intros c Hc. apply Hin. lia.
Qed.
End CodecFacts.

(** ** Two bytes as a signed number *)

Lemma byte_to_Z_range (b : byte) : 0 <= byte_to_Z b < 256.
Proof.
  unfold byte_to_Z. pose proof (to_N_bounded b). lia.
Qed.

Lemma lor_shift_bytes (h l : Z) :
  0 <= h < 256 → 0 <= l < 256 →
  Z.lor l (wrap16 (Z.shiftl h 8)) = 256 * h + l.
Proof.
  intros Hh Hl. unfold wrap16.
  rewrite Z.shiftl_mul_pow2 by lia. change (2 ^ 8) with 256.
  rewrite Z.mod_small by lia.
  rewrite <- Z.add_nocarry_lor; [lia|].
  apply Z.bits_inj'. intros n Hn. rewrite Z.land_spec, Z.bits_0.
  destruct (Z.ltb_spec n 8) as [Hlt|Hge].
  - replace (h * 256) with (Z.shiftl h 8)
      by (rewrite Z.shiftl_mul_pow2 by lia; reflexivity).
    rewrite (Z.shiftl_spec_low h 8 n) by lia. apply andb_false_r.
  - assert (Z.testbit l n = false) as ->; [|reflexivity].
    destruct (Z.eq_dec l 0) as [->|Hnz]; [apply Z.bits_0|].
    apply Z.bits_above_log2; [lia|].
    assert (Z.log2 l < 8); [|lia].
    apply Z.log2_lt_pow2; lia.
Qed.

Lemma int16_signed16BE (hi lo : byte) :
  int16 (Z.lor (byte_to_Z lo) (wrap16 (Z.shiftl (byte_to_Z hi) 8)))
  = signed16BE hi lo.
Proof.
  pose proof (byte_to_Z_range hi). pose proof (byte_to_Z_range lo).
  rewrite lor_shift_bytes by done. unfold int16, signed16BE. cbv zeta.
  destruct (Z.ltb_spec (256 * byte_to_Z hi + byte_to_Z lo) 32768).
  - rewrite Z.mod_small; lia.
  - replace (256 * byte_to_Z hi + byte_to_Z lo + 32768)
      with (256 * byte_to_Z hi + byte_to_Z lo - 32768 + 1 * 65536) by lia.
    rewrite Z.mod_add by lia. rewrite Z.mod_small; lia.
Qed.

Lemma signed16BE_range (hi lo : byte) : -32768 <= signed16BE hi lo < 32768.
Proof.
  pose proof (byte_to_Z_range hi). pose proof (byte_to_Z_range lo).
  unfold signed16BE. cbv zeta.
  destruct (Z.ltb_spec (256 * byte_to_Z hi + byte_to_Z lo) 32768); lia.
Qed.

(** ** float32 division by ten *)

Lemma tenth_close_from_spec n : ∀ z r,
  tenth_close_from n z = true → z <= r < z + Z.of_nat n → tenth_close r = true.
Proof.
  induction n as [|n IH]; intros z r Hc Hr; [lia|].
  cbn [tenth_close_from] in Hc. apply andb_prop in Hc as [Hz Hrest].
  destruct (Z.eq_dec r z) as [->|Hne]; [done|].
  apply (IH (z + 1)); [done|lia].
Qed.

Lemma tenth_close_int16 :
  tenth_close_from (Z.to_nat 65536) (-32768) = true.
Proof. vm_compute. reflexivity. Qed.

Lemma f32_tenth (raw : Z) :
  -32768 <= raw < 32768 →
  ∃ q, f32_to_Q (f32_div (float32_of_Z raw) (float32_of_Z 10)) = Some q
       ∧ (Qabs (q * 10 - inject_Z raw) * inject_Z 16777216
          <= Qabs (inject_Z raw))%Q.
Proof.
  intros Hr.
  pose proof (tenth_close_from_spec _ _ raw tenth_close_int16) as H.
  unfold tenth_close in H.
  specialize (H ltac:(lia)).
  destruct (f32_to_Q _) as [q|]; [|done].
  exists q. split; [done|]. by apply Qle_bool_iff.
Qed.

(** ** What the specification says of the codec *)

(** C2: a 64-byte response decodes, without panic, to exactly seven
    non-nil readings, and the reading at position [c] carries channel [c]:
    the channels read 0,1,...,6 in this order whatever the bytes are. *)
Theorem decode_seven_in_order (response : slice byte) :
  len response = 64%nat →
  ∃ sensors readings,
    result (getSensorDataFromBytes response) = Normal sensors
    ∧ elems sensors = Some <$> readings
    ∧ length readings = 7%nat
    ∧ Channel <$> readings = [0; 1; 2; 3; 4; 5; 6]
    ∧ ∀ c, (c < 7)%nat →
        ∃ s, elems sensors !! c = Some (Some s) ∧ Channel s = Z.of_nat c.
Proof.
  intros Hlen.
  destruct (getSensorDataFromBytes_spec response)
    as (log & out & Hrun & _ & _ & Hl & Hin); [lia|].
  assert (∀ c, (c < 7)%nat →
            ∃ s, elems out !! c = Some (Some s) ∧ Channel s = Z.of_nat c) as Hch.
  { intros c Hc. destruct (Hin c Hc) as (l & s & Hs & Hlk).
    destruct (sensorOfChannel_total response c) as (l' & s' & Hs' & _ & Hchan);
      [lia|].
    rewrite Hs in Hs'. injection Hs' as _ ->. eauto. }
  exists out. rewrite Hrun. cbn [result snd].
  destruct (Hch 0%nat) as (s0 & H0 & C0); [lia|].
  destruct (Hch 1%nat) as (s1 & H1 & C1); [lia|].
  destruct (Hch 2%nat) as (s2 & H2 & C2); [lia|].
  destruct (Hch 3%nat) as (s3 & H3 & C3); [lia|].
  destruct (Hch 4%nat) as (s4 & H4 & C4); [lia|].
  destruct (Hch 5%nat) as (s5 & H5 & C5); [lia|].
  destruct (Hch 6%nat) as (s6 & H6 & C6); [lia|].
  destruct (elems out) as [|e0 [|e1 [|e2 [|e3 [|e4 [|e5 [|e6 [|? ?]]]]]]]];
    try discriminate Hl.
  cbn in H0, H1, H2, H3, H4, H5, H6. simplify_eq.
  exists [s0; s1; s2; s3; s4; s5; s6]. split_and!; try done.
  cbn. by rewrite C0, C1, C2, C3, C4, C5, C6.
Qed.

Lemma decode_seven_in_order_witness :
  len sample_response = 64%nat
  ∧ ∃ sensors readings,
      result (getSensorDataFromBytes sample_response) = Normal sensors
      ∧ elems sensors = Some <$> readings
      ∧ length readings = 7%nat
      ∧ Channel <$> readings = [0; 1; 2; 3; 4; 5; 6]
      ∧ ∀ c, (c < 7)%nat →
          ∃ s, elems sensors !! c = Some (Some s) ∧ Channel s = Z.of_nat c.
Proof.
  split; [reflexivity|]. apply (decode_seven_in_order sample_response).
  reflexivity.
Defined.

(** C3: when the first byte of channel [c]'s slot is 0x7F, reading [c] is
    the absent one: channel [c], [Absent] set, temperature +0 and humidity
    0, whatever the other two bytes of the slot are. *)
Theorem decode_absent (response : slice byte) (c : nat) :
  len response = 64%nat →
  (c < 7)%nat →
  elems response !! (1 + 3 * c)%nat = Some x7f →
  ∃ sensors,
    result (getSensorDataFromBytes response) = Normal sensors
    ∧ elems sensors !! c
      = Some (Some {| Channel := Z.of_nat c; Temperature := f32_zero;
                      Humidity := x00; Absent := true |}).
Proof.
  intros Hlen Hc Hb.
  destruct (getSensorDataFromBytes_spec response)
    as (log & out & Hrun & _ & _ & _ & Hin); [lia|].
  exists out. rewrite Hrun. split; [done|].
  destruct (Hin c Hc) as (l & s & Hs & Hlk).
  replace (1 + 3 * c)%nat with (1 + c * 3)%nat in Hb by lia.
  rewrite (sensorOfChannel_absent _ _ Hb) in Hs. by simplify_eq.
Qed.

Lemma decode_absent_witness :
  len sample_response = 64%nat ∧ (1 < 7)%nat
  ∧ elems sample_response !! (1 + 3 * 1)%nat = Some x7f
  ∧ ∃ sensors,
      result (getSensorDataFromBytes sample_response) = Normal sensors
      ∧ elems sensors !! 1%nat
        = Some (Some {| Channel := 1; Temperature := f32_zero;
                        Humidity := x00; Absent := true |}).
Proof.
  split_and!; [reflexivity | lia | reflexivity |].
  apply (decode_absent sample_response 1); [reflexivity | lia | reflexivity].
Defined.

(** C4: when the first byte [b0] of channel [c]'s slot is not 0x7F,
    reading [c] is present; its temperature is the float32 quotient by ten
    of the big-endian two's-complement reading of [b0 b1], a number between
    -32768 and 32767 (so 0xFF 0xCE is -50 and gives -5.0), which is the
    rational [raw / 10] up to float32 rounding; its humidity is the third
    byte [b2] itself, whichever of the 256 values it has. *)
Theorem decode_present (response : slice byte) (c : nat) (b0 b1 b2 : byte) :
  len response = 64%nat →
  (c < 7)%nat →
  elems response !! (1 + 3 * c)%nat = Some b0 →
  elems response !! (2 + 3 * c)%nat = Some b1 →
  elems response !! (3 + 3 * c)%nat = Some b2 →
  b0 ≠ x7f →
  ∃ sensors s,
    result (getSensorDataFromBytes response) = Normal sensors
    ∧ elems sensors !! c = Some (Some s)
    ∧ Channel s = Z.of_nat c
    ∧ Absent s = false
    ∧ Temperature s
      = f32_div (float32_of_Z (signed16BE b0 b1)) (float32_of_Z 10)
    ∧ -32768 <= signed16BE b0 b1 < 32768
    ∧ (∃ q, f32_to_Q (Temperature s) = Some q
            ∧ (Qabs (q * 10 - inject_Z (signed16BE b0 b1)) * inject_Z 16777216
               <= Qabs (inject_Z (signed16BE b0 b1)))%Q)
    ∧ (b0 = xff → b1 = xce →
       signed16BE b0 b1 = -50
       ∧ ∃ q, f32_to_Q (Temperature s) = Some q ∧ (q == -5)%Q)
    ∧ Humidity s = b2.
Proof.
  intros Hlen Hc H0 H1 H2 Hne.
  destruct (getSensorDataFromBytes_spec response)
    as (log & out & Hrun & _ & _ & _ & Hin); [lia|].
  destruct (Hin c Hc) as (l & s & Hs & Hlk).
  replace (1 + 3 * c)%nat with (1 + c * 3)%nat in H0 by lia.
  replace (2 + 3 * c)%nat with (2 + c * 3)%nat in H1 by lia.
  replace (3 + 3 * c)%nat with (3 + c * 3)%nat in H2 by lia.
  rewrite (sensorOfChannel_present _ _ _ _ _ H0 H1 H2 Hne) in Hs.
  rewrite int16_signed16BE in Hs. injection Hs as _ <-.
  eexists out, _. rewrite Hrun. cbn [result snd].
  do 5 (split; [done|]). cbn [Temperature Humidity].
  split; [apply signed16BE_range|].
  split; [apply f32_tenth, signed16BE_range|].
  split; [|done].
  intros -> ->. split; [reflexivity|]. eexists. split; reflexivity.
Qed.

Lemma decode_present_witness :
  len sample_response = 64%nat ∧ (0 < 7)%nat
  ∧ elems sample_response !! (1 + 3 * 0)%nat = Some xff
  ∧ elems sample_response !! (2 + 3 * 0)%nat = Some xce
  ∧ elems sample_response !! (3 + 3 * 0)%nat = Some x28
  ∧ xff ≠ x7f
  ∧ ∃ sensors s,
      result (getSensorDataFromBytes sample_response) = Normal sensors
      ∧ elems sensors !! 0%nat = Some (Some s)
      ∧ Channel s = 0
      ∧ Absent s = false
      ∧ Temperature s
        = f32_div (float32_of_Z (signed16BE xff xce)) (float32_of_Z 10)
      ∧ -32768 <= signed16BE xff xce < 32768
      ∧ (∃ q, f32_to_Q (Temperature s) = Some q
              ∧ (Qabs (q * 10 - inject_Z (signed16BE xff xce))
                   * inject_Z 16777216
                 <= Qabs (inject_Z (signed16BE xff xce)))%Q)
      ∧ (xff = xff → xce = xce →
         signed16BE xff xce = -50
         ∧ ∃ q, f32_to_Q (Temperature s) = Some q ∧ (q == -5)%Q)
      ∧ Humidity s = x28.
Proof.
  split_and!; [reflexivity | lia | reflexivity | reflexivity | reflexivity
               | discriminate |].
  apply (decode_present sample_response 0 xff xce x28);
    [reflexivity | lia | reflexivity | reflexivity | reflexivity | discriminate].
Defined.

(** C5: the request frame is built without panic and is the same 64
    bytes every time: 7B 03 40 7D, then sixty zero bytes. *)
Theorem request_frame :
  ∃ b, getTempRequestBytes = Normal b
       ∧ len b = 64%nat
       ∧ elems b = [x7b; x03; x40; x7d] ++ replicate 60 x00
       ∧ elems b !! 0%nat = Some x7b
       ∧ elems b !! 1%nat = Some x03
       ∧ elems b !! 2%nat = Some x40
       ∧ elems b !! 3%nat = Some x7d
       ∧ ∀ i, (4 ≤ i < 64)%nat → elems b !! i = Some x00.
Proof.
  eexists. split; [reflexivity|]. cbn [elems].
  split_and!; try reflexivity.
  intros i Hi.
  change (<[3%nat:=x7d]> _) with ([x7b; x03; x40; x7d] ++ replicate 60 x00).
  rewrite lookup_app_r by (cbn; lia).
  apply lookup_replicate_2. cbn. lia.
Qed.

(** C9: the decoder checks no length. On a buffer of at least 22 bytes
    it does not panic, and every offset it indexes lies between 1 and 21,
    below the length. *)
Theorem decode_in_bounds (response : slice byte) :
  (22 ≤ len response)%nat →
  (∃ sensors, result (getSensorDataFromBytes response) = Normal sensors)
  ∧ Forall (λ o, 1 ≤ o ≤ 21 ∧ o < len response)%nat
      (offsets (getSensorDataFromBytes response)).
Proof.
  intros Hlen.
  destruct (getSensorDataFromBytes_spec response Hlen)
    as (log & out & Hrun & Hlog & _).
  rewrite Hrun. split; [by exists out|].
  cbn [offsets fst]. eapply Forall_impl; eauto. cbn. lia.
Qed.

Lemma decode_in_bounds_witness :
  (22 ≤ len sample_response)%nat
  ∧ (∃ sensors,
       result (getSensorDataFromBytes sample_response) = Normal sensors)
  ∧ Forall (λ o, 1 ≤ o ≤ 21 ∧ o < len sample_response)%nat
      (offsets (getSensorDataFromBytes sample_response)).
Proof.
  assert (22 ≤ len sample_response)%nat as H by (cbn; lia).
  split; [exact H|]. exact (decode_in_bounds sample_response H).
Defined.

(** Without the precondition the decoder does panic: offset 1 is indexed
    whatever the length, and a present channel 6 needs offset 21. *)
Lemma decode_short_panics (response : slice byte) :
  (len response ≤ 1)%nat →
  getSensorDataFromBytes response
  = ([1%nat], Panics (IndexOutOfRange 1 (len response))).
Proof.
  intros Hlen. unfold getSensorDataFromBytes. cbn [channelLoop].
  unfold sensorOfChannel, index, at_index.
  change (1 + 0 * 3)%nat with 1%nat.
  rewrite (lookup_ge_None_2 (elems response) 1) by (unfold len in Hlen; lia).
  reflexivity.
Qed.

Example decode_21_bytes_panics :
  result (getSensorDataFromBytes (Slice (replicate 21 x00) []))
  = Panics (IndexOutOfRange 21 21).
Proof. reflexivity. Qed.

(** ** Runs of the session *)

Lemma getTempRequestBytes_frame : getTempRequestBytes = Normal (Slice frame []).
Proof. reflexivity. Qed.

Lemma fill_len (buf : slice byte) (data : list byte) :
  len (fill buf data) = len buf.
Proof.
  unfold fill, len. cbn [elems].
  rewrite length_take, length_app, length_drop. lia.
Qed.

(** Decoding the buffer of a read never panics: the buffer keeps its 64
    bytes. *)
Lemma decode_read_buffer (data : list byte) :
  ∃ sensors,
    result (getSensorDataFromBytes (fill (make 64 x00) data)) = Normal sensors
    ∧ length (elems sensors) = 7%nat.
Proof.
  destruct (getSensorDataFromBytes_spec (fill (make 64 x00) data))
    as (log & out & Hrun & _ & _ & Hl & _).
  { rewrite fill_len. cbn. lia. }
  exists out. by rewrite Hrun.
Qed.

Section SessionFacts.
Context {W : Type} (h : Hid W).
Implicit Types (w : W) (info : DeviceInfo) (device : Device).

(** The whole run of [CheckDeviceWithoutQuery] on a free mutex. *)
Lemma run_CheckDeviceWithoutQuery w info rest device oerr w1 cerr w2 :
  hid_open h info w = ((device, oerr), w1) →
  hid_close h device w1 = (cerr, w2) →
  run h (CheckDeviceWithoutQuery (info :: rest)) false w
  = match cerr with
    | None =>
        mkRun [Lock; Open info; Log LogClosing; Close device; Unlock]
          false w2
          (Returns (match oerr with Some _ => false | None => true end))
    | Some _ =>
        mkRun [Lock; Open info; Log LogClosing; Close device;
               Log LogCloseFailed]
          true w2 (Exits 1)
    end.
Proof.
  intros Hopen Hclose. unfold CheckDeviceWithoutQuery.
  cbn. rewrite Hopen. cbn. rewrite Hclose.
  destruct cerr; reflexivity.
Qed.

(** Whatever the mutex, the device list and the device,
    [CheckDeviceWithoutQuery] performs no write and no read. *)
Lemma CheckDeviceWithoutQuery_no_transfer deviceInfo locked w :
  filter is_transfer
    (events (run h (CheckDeviceWithoutQuery deviceInfo) locked w)) = [].
Proof.
  unfold CheckDeviceWithoutQuery. destruct locked; [reflexivity|].
  destruct deviceInfo as [|info rest]; [reflexivity|].
  cbn. destruct (hid_open h info w) as [[device oerr] w1]. cbn.
  destruct (hid_close h device w1) as [[e|] w2]; reflexivity.
Qed.

(** The run of [QueryDeviceSensors] on a free mutex when the device
    does not open. *)
Lemma run_QueryDeviceSensors_open_failed w info rest device e w1 :
  hid_open h info w = ((device, Some e), w1) →
  run h (QueryDeviceSensors (info :: rest)) false w
  = mkRun [Log (LogOpening (info :: rest)); Lock; Open info;
           Log (LogOpenFailed e)]
      true w1 (Returns (nilSlice, Some e)).
Proof.
  intros Hopen. unfold QueryDeviceSensors. cbn. rewrite Hopen. reflexivity.
Qed.

Lemma run_QueryDeviceSensors_write_failed
    w info rest device w1 n e w2 cerr w3 :
  hid_open h info w = ((device, None), w1) →
  hid_write h device frame w1 = ((n, Some e), w2) →
  hid_close h device w2 = (cerr, w3) →
  run h (QueryDeviceSensors (info :: rest)) false w
  = mkRun (upto_write info rest device
             ++ [Log (LogWriteFailed e)] ++ deferred_ops device cerr)
      (after_deferred cerr (@nilSlice (option Sensor), Some e)).1 w3
      (after_deferred cerr (@nilSlice (option Sensor), Some e)).2.
Proof.
  intros Hopen Hwrite Hclose. unfold QueryDeviceSensors.
  rewrite getTempRequestBytes_frame. cbn -[frame]. rewrite Hopen. cbn -[frame].
  rewrite Hwrite. cbn. rewrite Hclose. destruct cerr; reflexivity.
Qed.

Lemma run_QueryDeviceSensors_read_failed
    w info rest device w1 n w2 data m e w3 cerr w4 :
  hid_open h info w = ((device, None), w1) →
  hid_write h device frame w1 = ((n, None), w2) →
  hid_read h device 64 w2 = ((data, m, Some e), w3) →
  hid_close h device w3 = (cerr, w4) →
  run h (QueryDeviceSensors (info :: rest)) false w
  = mkRun (upto_write info rest device
             ++ [Log (LogWrote n); Sleep 500; Read device 64;
                 Log (LogReadFailed e)]
             ++ deferred_ops device cerr)
      (after_deferred cerr (@nilSlice (option Sensor), Some e)).1 w4
      (after_deferred cerr (@nilSlice (option Sensor), Some e)).2.
Proof.
  intros Hopen Hwrite Hread Hclose. unfold QueryDeviceSensors.
  rewrite getTempRequestBytes_frame. cbn -[frame]. rewrite Hopen. cbn -[frame].
  rewrite Hwrite. cbn. rewrite Hread. cbn. rewrite Hclose.
  destruct cerr; reflexivity.
Qed.

Lemma run_QueryDeviceSensors_read
    w info rest device w1 n w2 data m w3 cerr w4 sensors :
  hid_open h info w = ((device, None), w1) →
  hid_write h device frame w1 = ((n, None), w2) →
  hid_read h device 64 w2 = ((data, m, None), w3) →
  hid_close h device w3 = (cerr, w4) →
  result (getSensorDataFromBytes (fill (make 64 x00) data)) = Normal sensors →
  run h (QueryDeviceSensors (info :: rest)) false w
  = mkRun (upto_write info rest device
             ++ [Log (LogWrote n); Sleep 500; Read device 64;
                 Log (LogReadResult m (elems (fill (make 64 x00) data)))]
             ++ deferred_ops device cerr)
      (after_deferred cerr (sensors, @None error)).1 w4
      (after_deferred cerr (sensors, @None error)).2.
Proof.
  intros Hopen Hwrite Hread Hclose Hdec. unfold QueryDeviceSensors.
  rewrite getTempRequestBytes_frame.
  cbn -[getSensorDataFromBytes fill frame]. rewrite Hopen.
  cbn -[getSensorDataFromBytes fill frame].
  rewrite Hwrite. cbn -[getSensorDataFromBytes fill frame]. rewrite Hread.
  cbn -[getSensorDataFromBytes fill frame].
  rewrite Hdec.
  cbn -[getSensorDataFromBytes fill frame]. rewrite Hclose.
  destruct cerr; reflexivity.
Qed.
End SessionFacts.

(** ** What the specification says of the session *)

(** C6 on the code: after an open that fails and gives back the nil
    handle, [CheckDeviceWithoutQuery] does not return yet: with the mutex
    held and nothing unlocked, the next thing it asks of the library is the
    close of that nil handle, through [closeDevice]. A boolean, [false],
    comes back only from a library whose [Close] returns nil on the nil
    handle. Nothing is written or read. *)
Theorem check_closes_nil_handle {W} (h : Hid W) (w : W) info rest e w1 :
  hid_open h info w = ((None, Some e), w1) →
  let r := run h (CheckDeviceWithoutQuery (info :: rest)) false w in
  (∃ after,
     events r = [Lock; Open info; Log LogClosing; Close None] ++ after)
  ∧ (∀ b, end_of r = Returns b → b = false ∧ (hid_close h None w1).1 = None)
  ∧ filter is_transfer (events r) = [].
Proof.
  intros Hopen r. subst r.
  destruct (hid_close h None w1) as [cerr w2] eqn:Hclose.
  rewrite (run_CheckDeviceWithoutQuery h _ _ _ _ _ _ _ _ Hopen Hclose).
  destruct cerr as [c|]; cbn [events end_of fst].
  - split_and!; [by eexists | done | done].
  - split_and!; [by eexists | by intros b [= <-] | done].
Qed.

Lemma check_closes_nil_handle_witness :
  let h := scripted (None, Some (Err "hidapi: failed to open device"))
             (64, None) ([], 0, None) None in
  let r := run h (CheckDeviceWithoutQuery [hub]) false tt in
  hid_open h hub tt = ((None, Some (Err "hidapi: failed to open device")), tt)
  ∧ (∃ after,
       events r = [Lock; Open hub; Log LogClosing; Close None] ++ after)
  ∧ (∀ b, end_of r = Returns b → b = false ∧ (hid_close h None tt).1 = None)
  ∧ filter is_transfer (events r) = [].
Proof.
  intros h r. split; [reflexivity|].
  exact (check_closes_nil_handle h tt hub []
           (Err "hidapi: failed to open device") tt eq_refl).
Defined.

(** C7, as the code has it: when the device opened and the write call
    returns an error, no read is made and exactly one close is attempted,
    after the write. When that close reports no error the mutex is
    released and the call returns the write's error with the nil slice;
    when it reports an error the process exits with status 1, the mutex
    still held. *)
Theorem query_write_failure {W} (h : Hid W) (w : W)
    info rest device w1 n e w2 cerr w3 :
  hid_open h info w = ((device, None), w1) →
  hid_write h device frame w1 = ((n, Some e), w2) →
  hid_close h device w2 = (cerr, w3) →
  let r := run h (QueryDeviceSensors (info :: rest)) false w in
  events r
  = [Log (LogOpening (info :: rest)); Lock; Open info;
     Log (LogWriting frame); Write device frame; Log (LogWriteFailed e);
     Log LogClosing; Close device]
      ++ match cerr with None => [Unlock] | Some _ => [Log LogCloseFailed] end
  ∧ filter is_close (events r) = [Close device]
  ∧ length (filter is_close (events r)) = 1%nat
  ∧ match cerr with
    | None => end_of r = Returns (nilSlice, Some e) ∧ usbLock r = false
    | Some _ => end_of r = Exits 1 ∧ usbLock r = true
    end.
Proof.
  intros Hopen Hwrite Hclose r. subst r.
  rewrite (run_QueryDeviceSensors_write_failed h _ _ _ _ _ _ _ _ _ _
             Hopen Hwrite Hclose).
  destruct cerr; split_and!; reflexivity.
Qed.

Lemma query_write_failure_witness :
  let h := scripted (Some 1%nat, None) (-1, Some (Err "hidapi: write failed"))
             ([], 0, None) None in
  let r := run h (QueryDeviceSensors [hub]) false tt in
  events r
  = [Log (LogOpening [hub]); Lock; Open hub;
     Log (LogWriting frame); Write (Some 1%nat) frame;
     Log (LogWriteFailed (Err "hidapi: write failed"));
     Log LogClosing; Close (Some 1%nat)] ++ [Unlock]
  ∧ filter is_close (events r) = [Close (Some 1%nat)]
  ∧ length (filter is_close (events r)) = 1%nat
  ∧ end_of r = Returns (nilSlice, Some (Err "hidapi: write failed"))
  ∧ usbLock r = false.
Proof.
  intros h r.
  exact (query_write_failure h tt hub [] (Some 1%nat) tt (-1)
           (Err "hidapi: write failed") tt None tt eq_refl eq_refl eq_refl).
Defined.

(** C7 as stated fails when the close fails too: the write call returned
    an error, one close was attempted, and the call returns nothing. *)
Lemma query_write_failure_close_failure :
  let h := scripted (Some 1%nat, None) (-1, Some (Err "hidapi: write failed"))
             ([], 0, None) (Some (Err "close")) in
  let r := run h (QueryDeviceSensors [hub]) false tt in
  hid_write h (Some 1%nat) frame tt
  = ((-1, Some (Err "hidapi: write failed")), tt)
  ∧ length (filter is_close (events r)) = 1%nat
  ∧ end_of r = Exits 1
  ∧ ¬ ∃ res, end_of r = Returns res.
Proof.
  cbn. split_and!; try reflexivity. intros [res Hres]. discriminate Hres.
Qed.

(** C8, as the code has it: only the error of the write call is looked
    at. With the device opened and every close succeeding, a write error
    comes back to the caller with the nil slice, whatever the count; a
    write that reports no error is followed by the read and the decoding
    whatever the count, also below 64, and the call returns what the read
    gives: its error, or seven readings and no error. *)
Theorem query_write_count_unchecked {W} (h : Hid W) (w : W)
    info rest device w1 n werr w2 data m rerr w3 :
  hid_open h info w = ((device, None), w1) →
  hid_write h device frame w1 = ((n, werr), w2) →
  hid_read h device 64 w2 = ((data, m, rerr), w3) →
  (∀ w', (hid_close h device w').1 = None) →
  let r := run h (QueryDeviceSensors (info :: rest)) false w in
  length frame = 64%nat
  ∧ match werr with
    | Some e => end_of r = Returns (nilSlice, Some e)
    | None =>
        Read device 64 ∈ events r
        ∧ match rerr with
          | Some e => end_of r = Returns (nilSlice, Some e)
          | None =>
              ∃ sensors,
                result (getSensorDataFromBytes (fill (make 64 x00) data))
                = Normal sensors
                ∧ length (elems sensors) = 7%nat
                ∧ end_of r = Returns (sensors, None)
          end
    end.
Proof.
  intros Hopen Hwrite Hread Hclose r. subst r. split; [reflexivity|].
  destruct werr as [e|].
  - pose proof (Hclose w2) as Hc.
    destruct (hid_close h device w2) as [cerr w4] eqn:Ec. cbn in Hc. subst cerr.
    by rewrite (run_QueryDeviceSensors_write_failed h _ _ _ _ _ _ _ _ _ _
                  Hopen Hwrite Ec).
  - pose proof (Hclose w3) as Hc.
    destruct (hid_close h device w3) as [cerr w4] eqn:Ec. cbn in Hc. subst cerr.
    destruct rerr as [e|].
    + rewrite (run_QueryDeviceSensors_read_failed h _ _ _ _ _ _ _ _ _ _ _ _ _
                 Hopen Hwrite Hread Ec).
      split; [|reflexivity]. cbn [events]. rewrite !elem_of_app, !elem_of_cons. tauto.
    + destruct (decode_read_buffer data) as (sensors & Hdec & Hl).
      rewrite (run_QueryDeviceSensors_read h _ _ _ _ _ _ _ _ _ _ _ _ _
                 Hopen Hwrite Hread Ec Hdec).
      split; [cbn [events]; rewrite !elem_of_app, !elem_of_cons; tauto|].
      by exists sensors.
Qed.

Lemma query_write_count_unchecked_witness :
  let h := scripted (Some 1%nat, None) (-1, Some (Err "hidapi: write failed"))
             (elems sample_response, 64, None) None in
  let r := run h (QueryDeviceSensors [hub]) false tt in
  length frame = 64%nat
  ∧ end_of r = Returns (nilSlice, Some (Err "hidapi: write failed")).
Proof.
  intros h r.
  exact (query_write_count_unchecked h tt hub [] (Some 1%nat) tt (-1)
           (Some (Err "hidapi: write failed")) tt (elems sample_response) 64
           None tt eq_refl eq_refl eq_refl (fun _ => eq_refl)).
Defined.

(** C8 as stated fails on a short write that reports no error: ten of
    the 64 bytes written, and the caller gets seven readings and no
    error. *)
Lemma query_short_write_unnoticed :
  let h := scripted (Some 1%nat, None) (10, None)
             (elems sample_response, 64, None) None in
  let r := run h (QueryDeviceSensors [hub]) false tt in
  hid_write h (Some 1%nat) frame tt = ((10, None), tt)
  ∧ 10 < Z.of_nat (length frame)
  ∧ ∃ sensors,
      end_of r = Returns (sensors, None) ∧ length (elems sensors) = 7%nat.
Proof.
  cbn -[frame]. split_and!; [reflexivity | cbn; lia |].
  eexists. split; reflexivity.
Qed.

(** C1 on the code: when the device does not open, [QueryDeviceSensors]
    returns the error with [usbLock] still locked, having unlocked nothing
    and closed nothing, so that the next call, of either function, waits
    for the mutex for ever. *)
Theorem query_open_failure_keeps_lock :
  let h := scripted (None, Some (Err "hidapi: failed to open device"))
             (64, None) ([], 0, None) None in
  let r := run h (QueryDeviceSensors [hub]) false tt in
  end_of r = Returns (nilSlice, Some (Err "hidapi: failed to open device"))
  ∧ usbLock r = true
  ∧ filter is_unlock (events r) = []
  ∧ filter is_close (events r) = []
  ∧ end_of (run h (QueryDeviceSensors [hub]) (usbLock r) (world r))
    = Stops Deadlock
  ∧ end_of (run h (CheckDeviceWithoutQuery [hub]) (usbLock r) (world r))
    = Stops Deadlock.
Proof. cbn. by split_and!. Qed.

(** ** Calls never interleave *)

Lemma follows_CheckDeviceWithoutQuery deviceInfo :
  follows Before (CheckDeviceWithoutQuery deviceInfo).
Proof.
  unfold CheckDeviceWithoutQuery. cbn. intros _.
  destruct deviceInfo as [|info rest]; cbn; [done|].
  intros [device err] _ [e|]; cbn; done.
Qed.

Lemma follows_QueryDeviceSensors deviceInfo :
  follows Before (QueryDeviceSensors deviceInfo).
Proof.
  unfold QueryDeviceSensors. rewrite getTempRequestBytes_frame.
  cbn -[getSensorDataFromBytes fill frame]. intros _ _.
  destruct deviceInfo as [|info rest];
    cbn -[getSensorDataFromBytes fill frame]; [done|].
  intros [device [e|]]; cbn -[getSensorDataFromBytes fill frame]; [done|].
  intros _ [n [e|]]; cbn -[getSensorDataFromBytes fill frame].
  - intros _ _ [c|]; cbn; done.
  - intros _ _ [[data m] [e|]]; cbn -[getSensorDataFromBytes fill frame].
    + intros _ _ [c|]; cbn; done.
    + intros _.
      destruct (result (getSensorDataFromBytes (fill (make 64 x00) data)));
        cbn; intros _ [c|]; cbn; done.
Qed.

Lemma follows_call (g : goroutine) : is_call g → follows_g Before g.
Proof.
  intros [deviceInfo [-> | ->]]; cbn [follows_g].
  - apply follows_QueryDeviceSensors.
  - apply follows_CheckDeviceWithoutQuery.
Qed.

Lemma serial_nil : serial [].
Proof. intros l1 l2 l3 l4 i j H. by destruct l1. Qed.

Lemma serial_snoc (l : list nat) (i : nat) :
  serial l → (i ∈ l → last l = Some i) → serial (l ++ [i]).
Proof.
  intros Hs Hlast l1 l2 l3 l4 a b Heq.
  destruct l4 as [|x l4' _] using rev_ind.
  - (* the second [a] is the new [i] *)
    assert (l1 ++ a :: l2 ++ b :: l3 ++ [a] = (l1 ++ a :: l2 ++ b :: l3) ++ [a])
      as E by reassoc.
    rewrite E in Heq. apply app_inj_tail in Heq as [-> ->].
    assert (a ∈ l1 ++ a :: l2 ++ b :: l3) as Hin
      by (rewrite !elem_of_app, !elem_of_cons; tauto).
    specialize (Hlast Hin).
    destruct l3 as [|y l3' _] using rev_ind.
    + assert (l1 ++ a :: l2 ++ [b] = (l1 ++ a :: l2) ++ [b])
        as E' by reassoc.
      rewrite E', last_snoc in Hlast. by injection Hlast.
    + assert (l1 ++ a :: l2 ++ b :: l3' ++ [y]
              = (l1 ++ a :: l2 ++ b :: l3') ++ [y]) as E' by reassoc.
      rewrite E', last_snoc in Hlast. injection Hlast as ->.
      by eapply (Hs l1 l2 l3' []).
  - (* the second [a] lies in [l] already *)
    assert (l1 ++ a :: l2 ++ b :: l3 ++ a :: l4' ++ [x]
            = (l1 ++ a :: l2 ++ b :: l3 ++ a :: l4') ++ [x]) as E by reassoc.
    rewrite E in Heq. apply app_inj_tail in Heq as [-> _].
    by eapply Hs.
Qed.

Lemma owners_cons e tr : owners (e :: tr) = owners [e] ++ owners tr.
Proof.
unfold owners. rewrite <- fmap_app. f_equal.
change (e :: tr) with ([e] ++ tr). by rewrite filter_app.
Qed.

Section Invariant.
Implicit Types (gs : list goroutine) (phs : list phase) (hist : list nat).

Lemma inv_stay l gs hist phs i ph g' :
  invariant (mkProcess l gs) hist phs →
  phs !! i = Some ph → follows_g ph g' →
  invariant (mkProcess l (<[i:=g']> gs)) hist phs.
Proof.
  intros [Hf H1 Hl Hb Hlast Hs] Hi Hg. split; try done. cbn in *.
  rewrite <- (list_insert_id phs i ph Hi). by apply Forall2_insert.
Qed.

Lemma inv_device l gs hist phs i g' :
  invariant (mkProcess l gs) hist phs →
  phs !! i = Some Holding → follows_g Holding g' →
  invariant (mkProcess l (<[i:=g']> gs)) (hist ++ [i]) phs.
Proof.
  intros Hinv Hi Hg.
  destruct (inv_stay _ _ _ _ _ _ _ Hinv Hi Hg) as [Hf H1 Hl Hb Hlast Hs].
  split; try done.
  - intros j Hj Hin. apply elem_of_app in Hin as [Hin | Hin].
    + by apply (Hb j).
    + apply list_elem_of_singleton in Hin as ->. congruence.
  - intros j Hj _. rewrite (H1 j i Hj Hi). apply last_snoc.
  - apply serial_snoc; [done|]. by apply Hlast.
Qed.

Lemma inv_lock gs hist phs i g' :
  invariant (mkProcess false gs) hist phs →
  phs !! i = Some Before → follows_g Holding g' →
  invariant (mkProcess true (<[i:=g']> gs)) hist (<[i:=Holding]> phs).
Proof.
  intros [Hf H1 Hl Hb Hlast Hs] Hi Hg. cbn in *.
  assert (∀ j, j ≠ i → <[i:=Holding]> phs !! j = Some Holding → False) as Hno.
  { intros j Hne Hj. rewrite list_lookup_insert_ne in Hj by done.
    by specialize (Hl j Hj). }
  assert (∀ j, <[i:=Holding]> phs !! j = Some Holding → j = i) as Honly.
  { intros j Hj. destruct (decide (j = i)); [done|]. by destruct (Hno j). }
  split; cbn; try done.
  - by apply Forall2_insert.
  - intros j j' Hj Hj'. by rewrite (Honly j Hj), (Honly j' Hj').
  - intros j Hj. destruct (decide (j = i)) as [->|Hne].
    + apply lookup_lt_Some in Hi.
      rewrite list_lookup_insert_eq in Hj by done. done.
    + rewrite list_lookup_insert_ne in Hj by done. by apply Hb.
  - intros j Hj Hin. rewrite (Honly j Hj) in Hin. by destruct (Hb i Hi).
Qed.

Lemma inv_unlock l gs hist phs i g' :
  invariant (mkProcess l gs) hist phs →
  phs !! i = Some Holding → follows_g Done g' →
  invariant (mkProcess false (<[i:=g']> gs)) hist (<[i:=Done]> phs).
Proof.
  intros [Hf H1 Hl Hb Hlast Hs] Hi Hg. cbn in *.
  assert (∀ j, <[i:=Done]> phs !! j = Some Holding → False) as Hno.
  { intros j Hj. destruct (decide (j = i)) as [->|Hne].
    - apply lookup_lt_Some in Hi.
      rewrite list_lookup_insert_eq in Hj by done. done.
    - rewrite list_lookup_insert_ne in Hj by done. by apply Hne, H1. }
  split; cbn; try done.
  - by apply Forall2_insert.
  - intros j j' Hj. by destruct (Hno j).
  - intros j Hj. by destruct (Hno j).
  - intros j Hj. destruct (decide (j = i)) as [->|Hne].
    + apply lookup_lt_Some in Hi.
      rewrite list_lookup_insert_eq in Hj by done. done.
    + rewrite list_lookup_insert_ne in Hj by done. by apply Hb.
  - intros j Hj. by destruct (Hno j).
Qed.

(** A step keeps the invariant, the history growing by the goroutine of
    a device operation. *)
Lemma step_invariant p e p' hist phs :
  invariant p hist phs → step p e p' →
  ∃ phs', invariant p' (hist ++ owners [e]) phs'.
Proof.
  intros Hinv Hstep. destruct Hstep as [i A o k r l l' gs Hi _ Hm].
  destruct (Forall2_lookup_r _ _ _ _ _ (inv_follows _ _ _ Hinv) Hi)
    as (ph & Hph & Hf).
  cbn [follows_g] in Hf.
  destruct ph, o; cbn in Hf; try done; cbn in Hm;
    unfold owners; cbn; rewrite ?app_nil_r.
  - (* Before, Lock *)
    destruct l; [done|]. injection Hm as <-.
    eexists. eapply inv_lock; [done | done | apply Hf].
  - injection Hm as <-. eexists. eapply inv_stay; [done | done | apply Hf].
  - (* Holding, Unlock *)
    destruct l; [|done]. injection Hm as <-.
    eexists. eapply inv_unlock; [done | done | apply Hf].
  - injection Hm as <-. eexists. eapply inv_device; [done | done | apply Hf].
  - injection Hm as <-. eexists. eapply inv_device; [done | done | apply Hf].
  - injection Hm as <-. eexists. eapply inv_device; [done | done | apply Hf].
  - injection Hm as <-. eexists. eapply inv_device; [done | done | apply Hf].
  - injection Hm as <-. eexists. eapply inv_device; [done | done | apply Hf].
  - injection Hm as <-. eexists. eapply inv_stay; [done | done | apply Hf].
  - injection Hm as <-. eexists. eapply inv_stay; [done | done | apply Hf].
Qed.

Lemma execution_serial p tr p' : execution p tr p' →
  ∀ hist phs, invariant p hist phs → serial (hist ++ owners tr).
Proof.
  induction 1 as [p | p e p' tr p'' Hstep _ IH]; intros hist phs Hinv.
  - rewrite app_nil_r. by destruct Hinv.
  - destruct (step_invariant _ _ _ _ _ Hinv Hstep) as [phs' Hinv'].
    rewrite owners_cons, app_assoc. by eapply IH.
Qed.

Lemma invariant_init gs :
  Forall is_call gs →
  invariant (mkProcess false gs) [] (replicate (length gs) Before).
Proof.
  intros Hcalls. split; cbn.
  - induction Hcalls as [|g gs Hg _ IH]; cbn; constructor; [|done].
    by apply follows_call.
  - intros i j Hi. apply lookup_replicate in Hi as [? _]. done.
  - intros i Hi. apply lookup_replicate in Hi as [? _]. done.
  - intros i _ Hin. by apply not_elem_of_nil in Hin.
  - intros i Hi. apply lookup_replicate in Hi as [? _]. done.
  - apply serial_nil.
Qed.
End Invariant.

(** C10: whatever calls of [QueryDeviceSensors] and
    [CheckDeviceWithoutQuery] run as goroutines of one process, whatever
    the scheduler and the device do, the device operations (open, write,
    delay, read, close) of the calls never interleave: once another call
    has touched the device, a call touches it no more. *)
Theorem calls_never_interleave (gs : list goroutine)
    (tr : list (nat * op)) (p' : process) :
  Forall is_call gs →
  execution (mkProcess false gs) tr p' →
  serial (owners tr).
Proof.
  intros Hcalls Hexec.
  change (serial ([] ++ owners tr)).
  eapply execution_serial; [exact Hexec|]. by apply invariant_init.
Qed.

Lemma calls_never_interleave_witness :
  Forall is_call two_calls
  ∧ (∃ p', execution (mkProcess false two_calls) two_calls_trace p')
  ∧ serial (owners two_calls_trace).
Proof.
  assert (Forall is_call two_calls) as Hcalls.
  { repeat constructor; exists [hub]; [left | right]; reflexivity. }
  assert (∃ p', execution (mkProcess false two_calls) two_calls_trace p')
    as [p' Hexec].
  { eexists. unfold two_calls_trace, two_calls.
    perform_step 0%nat tt.
    perform_step 1%nat tt.
    perform_step 1%nat (Some 1%nat, @None error).
    perform_step 1%nat tt.
    perform_step 1%nat (@None error).
    perform_step 1%nat tt.
    perform_step 0%nat tt.
    perform_step 0%nat (Some 2%nat, @None error).
    perform_step 0%nat tt.
    perform_step 0%nat (-1, Some (Err "hidapi: write failed")).
    perform_step 0%nat tt.
    perform_step 0%nat tt.
    perform_step 0%nat (@None error).
    perform_step 0%nat tt.
    apply exec_done. }
  split; [exact Hcalls|]. split; [by exists p'|].
  exact (calls_never_interleave two_calls two_calls_trace p' Hcalls Hexec).
Defined.

(** ** More on the codec *)

Section CodecMore.
Implicit Types (response : slice byte) (c : nat).

(** One channel is decoded from the three bytes of its slot alone. *)
Lemma sensorOfChannel_slot response1 response2 c :
  (3 + c * 3 < len response1)%nat →
  (∀ k, (k < 3)%nat →
     elems response1 !! (1 + c * 3 + k)%nat = elems response2 !! (1 + c * 3 + k)%nat) →
  sensorOfChannel response1 c = sensorOfChannel response2 c.
Proof.
  intros Hlen Hsame. unfold len in Hlen.
  destruct (lookup_lt_is_Some_2 (elems response1) (1 + c * 3)) as [b0 H0]; [lia|].
  destruct (lookup_lt_is_Some_2 (elems response1) (2 + c * 3)) as [b1 H1]; [lia|].
  destruct (lookup_lt_is_Some_2 (elems response1) (3 + c * 3)) as [b2 H2]; [lia|].
  pose proof (Hsame 0%nat ltac:(lia)) as E0.
  pose proof (Hsame 1%nat ltac:(lia)) as E1.
  pose proof (Hsame 2%nat ltac:(lia)) as E2.
  replace (1 + c * 3 + 0)%nat with (1 + c * 3)%nat in E0 by lia.
  replace (1 + c * 3 + 1)%nat with (2 + c * 3)%nat in E1 by lia.
  replace (1 + c * 3 + 2)%nat with (3 + c * 3)%nat in E2 by lia.
  rewrite H0 in E0. rewrite H1 in E1. rewrite H2 in E2.
  symmetry in E0, E1, E2.
  destruct (Byte.eqb b0 x7f) eqn:E;
    [apply byte_dec_bl in E; subst b0 | apply Byte.eqb_false in E].
  - by rewrite (sensorOfChannel_absent _ _ H0), (sensorOfChannel_absent _ _ E0).
  - by rewrite (sensorOfChannel_present _ _ _ _ _ H0 H1 H2 E),
         (sensorOfChannel_present _ _ _ _ _ E0 E1 E2 E).
Qed.

(** The reading the decoder gives for a channel is what the loop body
    computes for it. *)
Lemma decode_reading response c :
  (22 ≤ len response)%nat → (c < 7)%nat →
  ∃ sensors l s,
    result (getSensorDataFromBytes response) = Normal sensors
    ∧ sensorOfChannel response c = (l, Normal s)
    ∧ elems sensors !! c = Some (Some s).
Proof.
  intros Hlen Hc.
  destruct (getSensorDataFromBytes_spec response Hlen)
    as (log & out & Hrun & _ & _ & _ & Hin).
  destruct (Hin c Hc) as (l & s & Hs & Hlk).
  exists out, l, s. by rewrite Hrun.
Qed.
End CodecMore.

(** X1: the reading of a channel depends on the three bytes of its slot
    only: two buffers of at least 22 bytes that agree at offsets 1+3c,
    2+3c and 3+3c decode to the same reading at position [c], whatever
    else they hold. *)
Theorem decode_slot_only (response1 response2 : slice byte) (c : nat) :
  (22 ≤ len response1)%nat →
  (22 ≤ len response2)%nat →
  (c < 7)%nat →
  (∀ k, (k < 3)%nat →
     elems response1 !! (1 + 3 * c + k)%nat
     = elems response2 !! (1 + 3 * c + k)%nat) →
  ∃ sensors1 sensors2 s,
    result (getSensorDataFromBytes response1) = Normal sensors1
    ∧ result (getSensorDataFromBytes response2) = Normal sensors2
    ∧ elems sensors1 !! c = Some (Some s)
    ∧ elems sensors2 !! c = Some (Some s).
Proof.
  intros Hlen1 Hlen2 Hc Hsame.
  destruct (decode_reading response1 c Hlen1 Hc) as (o1 & l1 & s1 & R1 & S1 & L1).
  destruct (decode_reading response2 c Hlen2 Hc) as (o2 & l2 & s2 & R2 & S2 & L2).
  rewrite (sensorOfChannel_slot response1 response2 c) in S1.
  - rewrite S1 in S2. injection S2 as _ ->. by exists o1, o2, s2.
  - lia.
  - intros k Hk. replace (1 + c * 3 + k)%nat with (1 + 3 * c + k)%nat by lia.
    by apply Hsame.
Qed.

Lemma decode_slot_only_witness :
  (22 ≤ len sample_response)%nat ∧ (22 ≤ len other_response)%nat ∧ (1 < 7)%nat
  ∧ (∀ k, (k < 3)%nat →
       elems sample_response !! (1 + 3 * 1 + k)%nat
       = elems other_response !! (1 + 3 * 1 + k)%nat)
  ∧ ∃ sensors1 sensors2 s,
      result (getSensorDataFromBytes sample_response) = Normal sensors1
      ∧ result (getSensorDataFromBytes other_response) = Normal sensors2
      ∧ elems sensors1 !! 1%nat = Some (Some s)
      ∧ elems sensors2 !! 1%nat = Some (Some s).
Proof.
  assert (22 ≤ len sample_response)%nat as H1 by (cbn; lia).
  assert (22 ≤ len other_response)%nat as H2 by (cbn; lia).
  assert (1 < 7)%nat as H3 by lia.
  assert (∀ k, (k < 3)%nat →
            elems sample_response !! (1 + 3 * 1 + k)%nat
            = elems other_response !! (1 + 3 * 1 + k)%nat) as H4.
  { intros [|[|[|k]]] Hk; [reflexivity | reflexivity | reflexivity | lia]. }
  refine (conj H1 (conj H2 (conj H3 (conj H4 _)))).
  exact (decode_slot_only sample_response other_response 1 H1 H2 H3 H4).
Defined.

(** Buffers that agree at offsets 1 to 21 decode alike. *)
Lemma decode_agree (response1 response2 : slice byte) :
  (22 ≤ len response1)%nat →
  (22 ≤ len response2)%nat →
  (∀ o, (1 ≤ o ≤ 21)%nat → elems response1 !! o = elems response2 !! o) →
  result (getSensorDataFromBytes response1)
  = result (getSensorDataFromBytes response2).
Proof.
  intros Hlen1 Hlen2 Hsame.
  destruct (getSensorDataFromBytes_spec response1 Hlen1)
    as (log1 & out1 & Hrun1 & _ & Hsp1 & Hl1 & Hin1).
  destruct (getSensorDataFromBytes_spec response2 Hlen2)
    as (log2 & out2 & Hrun2 & _ & Hsp2 & Hl2 & Hin2).
  rewrite Hrun1, Hrun2. cbn [result snd].
  assert (elems out1 = elems out2) as He.
  { apply list_eq. intros c.
    destruct (decide (c < 7)%nat) as [Hc|Hc].
    - destruct (Hin1 c Hc) as (l1 & s1 & S1 & ->).
      destruct (Hin2 c Hc) as (l2 & s2 & S2 & ->).
      rewrite (sensorOfChannel_slot response1 response2 c) in S1.
      + rewrite S1 in S2. by injection S2 as _ ->.
      + lia.
      + intros k Hk. apply Hsame. lia.
    - rewrite !lookup_ge_None_2 by lia. done. }
  destruct out1, out2. cbn in *. by subst.
Qed.

(** X2: the decoder looks at offsets 1 to 21 only: two buffers of at
    least 22 bytes that agree there decode to the same seven readings,
    whatever byte 0 and the bytes from offset 22 on are, and whatever their
    lengths and capacities. *)
Theorem decode_ignores_rest (response1 response2 : slice byte) :
  (22 ≤ len response1)%nat →
  (22 ≤ len response2)%nat →
  (∀ o, (1 ≤ o ≤ 21)%nat → elems response1 !! o = elems response2 !! o) →
  result (getSensorDataFromBytes response1)
  = result (getSensorDataFromBytes response2).
Proof. apply decode_agree. Qed.

Lemma decode_ignores_rest_witness :
  (22 ≤ len sample_response)%nat
  ∧ (22 ≤ len (Slice (xaa :: take 21 (drop 1 (elems sample_response))) [xbb]))%nat
  ∧ (∀ o, (1 ≤ o ≤ 21)%nat →
       elems sample_response !! o
       = elems (Slice (xaa :: take 21 (drop 1 (elems sample_response))) [xbb])
           !! o)
  ∧ result (getSensorDataFromBytes sample_response)
    = result (getSensorDataFromBytes
                (Slice (xaa :: take 21 (drop 1 (elems sample_response))) [xbb])).
Proof.
  assert (22 ≤ len sample_response)%nat as H1 by (cbn; lia).
  assert (22 ≤ len (Slice (xaa :: take 21 (drop 1 (elems sample_response)))
                      [xbb]))%nat as H2 by (cbn; lia).
  assert (∀ o, (1 ≤ o ≤ 21)%nat →
            elems sample_response !! o
            = elems (Slice (xaa :: take 21 (drop 1 (elems sample_response)))
                       [xbb]) !! o) as H3.
  { intros o Ho. do 22 (destruct o as [|o]; [first [lia | reflexivity]|]). lia. }
  refine (conj H1 (conj H2 (conj H3 _))).
  exact (decode_ignores_rest _ _ H1 H2 H3).
Defined.

Section Totality.
Implicit Types (response : slice byte) (c : nat).

(** The loop body returns exactly on a readable slot. *)
Lemma sensorOfChannel_returns response c :
  (∃ l s, sensorOfChannel response c = (l, Normal s))
  ↔ slot_readable response c.
Proof.
  unfold slot_readable. replace (1 + 3 * c)%nat with (1 + c * 3)%nat by lia.
  replace (3 + 3 * c)%nat with (3 + c * 3)%nat by lia. split.
  - intros (l & s & Hs). unfold sensorOfChannel, index, at_index in Hs.
    destruct (elems response !! (1 + c * 3)%nat) as [b0|] eqn:H0;
      cbn [mbind Dec_bind] in Hs; [|discriminate Hs].
    exists b0. split; [done|].
    destruct (Byte.eqb b0 x7f) eqn:E; [left; by apply byte_dec_bl|right].
    cbn [mbind Dec_bind negb] in Hs.
    destruct (through _ _) as [lt [z|p]]; cbn [mbind Dec_bind] in Hs;
      [|discriminate Hs].
    replace (1 + c * 3 + 2)%nat with (3 + c * 3)%nat in Hs by lia.
    destruct (elems response !! (3 + c * 3)%nat) as [b2|] eqn:H2;
      [|discriminate Hs].
    apply lookup_lt_Some in H2. exact H2.
  - intros (b0 & H0 & [-> | Hlen]).
    + rewrite (sensorOfChannel_absent _ _ H0). eauto.
    + destruct (sensorOfChannel_total response c Hlen) as (l & s & Hs & _).
      eauto.
Qed.

(** The loop returns when every channel it still has to do does. *)
Lemma channelLoop_returns response todo : ∀ c (sensors : slice (option Sensor)),
  (c + todo ≤ len sensors)%nat →
  (∀ i, (c ≤ i < c + todo)%nat → slot_readable response i) →
  ∃ log out, channelLoop response todo c sensors = (log, Normal out).
Proof.
  induction todo as [|todo IH]; intros c sensors Hs Hall; [by eexists _, _|].
  destruct (proj2 (sensorOfChannel_returns response c)) as (l & s & Hc);
    [apply Hall; lia|].
  cbn [channelLoop]. rewrite Hc. cbn [mbind Dec_bind]. unfold store, quiet.
  rewrite decide_True by lia. cbn [mbind Dec_bind].
  destruct (IH (S c) (Slice (<[c:=Some s]> (elems sensors)) (spare sensors)))
    as (log & out & Hloop).
  { unfold len in *. cbn [elems]. rewrite length_insert. lia. }
  { intros i Hi. apply Hall. lia. }
  rewrite Hloop. by eexists _, _.
Qed.

(** The loop panics as soon as a channel does. *)
Lemma channelLoop_returned response todo : ∀ c (sensors : slice (option Sensor)) log out,
  channelLoop response todo c sensors = (log, Normal out) →
  ∀ i, (c ≤ i < c + todo)%nat → slot_readable response i.
Proof.
  induction todo as [|todo IH]; intros c sensors log out Hrun i Hi; [lia|].
  cbn [channelLoop] in Hrun.
  destruct (sensorOfChannel response c) as [l [s|p]] eqn:Hc;
    cbn [mbind Dec_bind] in Hrun; [|discriminate Hrun].
  destruct (quiet (store sensors c (Some s))) as [l' [sensors'|p]];
    cbn [mbind Dec_bind] in Hrun; [|discriminate Hrun].
  destruct (channelLoop response todo (S c) sensors') as [l'' [out'|p]] eqn:Hrest;
    [|discriminate Hrun].
  destruct (decide (i = c)) as [->|Hne].
  - apply sensorOfChannel_returns. eauto.
  - eapply IH; [exact Hrest|lia].
Qed.
End Totality.

(** X3: the decoder returns, rather than panic, exactly on the buffers
    in which every channel has the first byte of its slot within the
    length and, unless that byte is 0x7F, the whole slot: 22 bytes are
    enough but not needed. *)
Theorem decode_returns_iff (response : slice byte) :
  (∃ sensors, result (getSensorDataFromBytes response) = Normal sensors)
  ↔ ∀ c, (c < 7)%nat → slot_readable response c.
Proof.
  unfold getSensorDataFromBytes. split.
  - intros [sensors Hres] c Hc.
    destruct (channelLoop response 7 0 (make 7 None)) as [log o] eqn:Hrun.
    cbn [result snd] in Hres. subst o.
    eapply channelLoop_returned; [exact Hrun|lia].
  - intros Hall.
    destruct (channelLoop_returns response 7 0 (make 7 None))
      as (log & out & Hrun); [cbn; lia | intros i Hi; apply Hall; lia |].
    exists out. by rewrite Hrun.
Qed.

(** A buffer of 20 bytes decodes when it marks the last channel absent;
    the same bytes with a sensor on the last channel do not. *)
Example decode_20_bytes :
  (∃ sensors,
     result (getSensorDataFromBytes (Slice (replicate 19 x00 ++ [x7f]) []))
     = Normal sensors)
  ∧ result (getSensorDataFromBytes (Slice (replicate 20 x00) []))
    = Panics (SliceBoundsOutOfRange 21 20).
Proof. split; [eexists|]; reflexivity. Qed.

(** ** The sentinel and the range of temperatures *)

Lemma byte_to_Z_inj (a b : byte) : byte_to_Z a = byte_to_Z b → a = b.
Proof.
  unfold byte_to_Z. intros H. apply N2Z.inj in H.
  pose proof (Byte.of_to_N a) as Ha. rewrite H, Byte.of_to_N in Ha.
  by injection Ha.
Qed.

Lemma signed16BE_inj (hi lo hi' lo' : byte) :
  signed16BE hi lo = signed16BE hi' lo' → hi = hi' ∧ lo = lo'.
Proof.
  pose proof (byte_to_Z_range hi). pose proof (byte_to_Z_range lo).
  pose proof (byte_to_Z_range hi'). pose proof (byte_to_Z_range lo').
  unfold signed16BE. cbv zeta. intros Heq.
  assert (byte_to_Z hi = byte_to_Z hi' ∧ byte_to_Z lo = byte_to_Z lo') as [Eh El].
  { destruct (Z.ltb_spec (256 * byte_to_Z hi + byte_to_Z lo) 32768);
      destruct (Z.ltb_spec (256 * byte_to_Z hi' + byte_to_Z lo') 32768); lia. }
  split; by apply byte_to_Z_inj.
Qed.

(** Without the sentinel as high byte the reading stays below 0x7F00. *)
Lemma signed16BE_below_sentinel (hi lo : byte) :
  hi ≠ x7f → signed16BE hi lo < 32512.
Proof.
  intros Hne.
  pose proof (byte_to_Z_range hi). pose proof (byte_to_Z_range lo).
  assert (byte_to_Z hi ≠ 127) as Hz.
  { intros Hz. apply Hne. by apply byte_to_Z_inj. }
  unfold signed16BE. cbv zeta.
  destruct (Z.ltb_spec (256 * byte_to_Z hi + byte_to_Z lo) 32768); lia.
Qed.

(** What the bound of [f32_tenth] leaves of the distance between ten
    times the quotient and the dividend. *)
Lemma tenth_distance (q : Q) (raw : Z) :
  -32768 <= raw < 32768 →
  (Qabs (q * 10 - inject_Z raw) * inject_Z 16777216 <= Qabs (inject_Z raw))%Q →
  (inject_Z raw - (1 # 512) <= q * 10 <= inject_Z raw + (1 # 512))%Q.
Proof.
  intros Hr Hb.
  assert (Qabs (inject_Z raw) <= 32768)%Q as Habs.
  { apply Qabs_Qle_condition. split.
    - change (- (32768))%Q with (inject_Z (-32768)). rewrite <- Zle_Qle. lia.
    - change 32768%Q with (inject_Z 32768). rewrite <- Zle_Qle. lia. }
  assert (Qabs (q * 10 - inject_Z raw) <= 1 # 512)%Q as Hd.
  { change (inject_Z 16777216) with 16777216%Q in Hb. lra. }
  apply Qabs_Qle_condition in Hd. lra.
Qed.

Lemma tenths_of_quotient (raw : Z) :
  -32768 <= raw < 32768 →
  tenths (f32_div (float32_of_Z raw) (float32_of_Z 10)) = Some raw.
Proof.
  intros Hr. destruct (f32_tenth raw Hr) as (q & Hq & Hb).
  unfold tenths. rewrite Hq. f_equal.
  destruct (tenth_distance q raw Hr Hb) as [Hlo Hhi].
  pose proof (Qfloor_le (q * 10 + (1 # 2))) as Hfl.
  pose proof (Qlt_floor (q * 10 + (1 # 2))) as Hfu.
  assert (inject_Z (Qfloor (q * 10 + (1 # 2))) < inject_Z (raw + 1))%Q as H1.
  { rewrite inject_Z_plus. change (inject_Z 1) with 1%Q. lra. }
  assert (inject_Z raw < inject_Z (Qfloor (q * 10 + (1 # 2)) + 1))%Q as H2.
  { rewrite inject_Z_plus in Hfu |- *. change (inject_Z 1) with 1%Q in Hfu |- *.
    lra. }
  rewrite <- Zlt_Qlt in H1, H2. lia.
Qed.

(** The reading of a slot without the sentinel, in full. *)
Lemma decode_present_reading (response : slice byte) (c : nat) (b0 b1 b2 : byte) :
  (22 ≤ len response)%nat → (c < 7)%nat →
  elems response !! (1 + 3 * c)%nat = Some b0 →
  elems response !! (2 + 3 * c)%nat = Some b1 →
  elems response !! (3 + 3 * c)%nat = Some b2 →
  b0 ≠ x7f →
  ∃ sensors,
    result (getSensorDataFromBytes response) = Normal sensors
    ∧ elems sensors !! c
      = Some (Some (mkSensor (Z.of_nat c)
                      (f32_div (float32_of_Z (signed16BE b0 b1))
                         (float32_of_Z 10))
                      b2 false)).
Proof.
  intros Hlen Hc H0 H1 H2 Hne.
  destruct (decode_reading response c Hlen Hc) as (out & l & s & Hres & Hs & Hlk).
  replace (1 + 3 * c)%nat with (1 + c * 3)%nat in H0 by lia.
  replace (2 + 3 * c)%nat with (2 + c * 3)%nat in H1 by lia.
  replace (3 + 3 * c)%nat with (3 + c * 3)%nat in H2 by lia.
  rewrite (sensorOfChannel_present _ _ _ _ _ H0 H1 H2 Hne) in Hs.
  rewrite int16_signed16BE in Hs. injection Hs as _ <-. by exists out.
Qed.

(** The reading of a slot with the sentinel, in full. *)
Lemma decode_absent_reading (response : slice byte) (c : nat) :
  (22 ≤ len response)%nat → (c < 7)%nat →
  elems response !! (1 + 3 * c)%nat = Some x7f →
  ∃ sensors,
    result (getSensorDataFromBytes response) = Normal sensors
    ∧ elems sensors !! c
      = Some (Some (mkSensor (Z.of_nat c) f32_zero x00 true)).
Proof.
  intros Hlen Hc H0.
  destruct (decode_reading response c Hlen Hc) as (out & l & s & Hres & Hs & Hlk).
  replace (1 + 3 * c)%nat with (1 + c * 3)%nat in H0 by lia.
  rewrite (sensorOfChannel_absent _ _ H0) in Hs. injection Hs as _ <-.
  by exists out.
Qed.

(** X4: a reading is marked absent exactly when the first byte of its
    slot is 0x7F; so the tenths of a present reading range from -32768 to
    32511 only: the readings 0x7F00 to 0x7FFF, 3251.2 degrees and more, are
    never reported as temperatures. *)
Theorem sentinel_splits_readings (response : slice byte) (c : nat) (b0 : byte) :
  len response = 64%nat →
  (c < 7)%nat →
  elems response !! (1 + 3 * c)%nat = Some b0 →
  ∃ sensors s,
    result (getSensorDataFromBytes response) = Normal sensors
    ∧ elems sensors !! c = Some (Some s)
    ∧ (Absent s = true ↔ b0 = x7f)
    ∧ (Absent s = false →
       ∃ raw, tenths (Temperature s) = Some raw ∧ -32768 <= raw < 32512).
Proof.
  intros Hlen Hc H0.
  destruct (lookup_lt_is_Some_2 (elems response) (2 + 3 * c)) as [b1 H1];
    [unfold len in Hlen; lia|].
  destruct (lookup_lt_is_Some_2 (elems response) (3 + 3 * c)) as [b2 H2];
    [unfold len in Hlen; lia|].
  destruct (Byte.eqb b0 x7f) eqn:E;
    [apply byte_dec_bl in E; subst b0 | apply Byte.eqb_false in E].
  - destruct (decode_absent_reading response c) as (out & Hres & Hlk);
      [lia | done | done |].
    eexists out, _. split_and!; [done | done | done | discriminate].
  - destruct (decode_present_reading response c b0 b1 b2) as (out & Hres & Hlk);
      [lia | done.. |].
    eexists out, _. split_and!; [done | done | | ].
    + cbn [Absent]. split; [discriminate | done].
    + intros _. exists (signed16BE b0 b1). cbn [Temperature].
      pose proof (signed16BE_range b0 b1).
      pose proof (signed16BE_below_sentinel b0 b1 E).
      split; [by apply tenths_of_quotient | lia].
Qed.

Lemma sentinel_splits_readings_witness :
  len sample_response = 64%nat ∧ (2 < 7)%nat
  ∧ elems sample_response !! (1 + 3 * 2)%nat = Some x00
  ∧ ∃ sensors s,
      result (getSensorDataFromBytes sample_response) = Normal sensors
      ∧ elems sensors !! 2%nat = Some (Some s)
      ∧ (Absent s = true ↔ x00 = x7f)
      ∧ (Absent s = false →
         ∃ raw, tenths (Temperature s) = Some raw ∧ -32768 <= raw < 32512).
Proof.
  refine (conj eq_refl (conj _ (conj eq_refl _))); [lia|].
  apply (sentinel_splits_readings sample_response 2 x00); [reflexivity | lia | reflexivity].
Defined.

(** X5: float32 keeps every tenth: ten times the temperature of a present
    reading, rounded to the nearest integer, is the signed big-endian
    reading of the first two bytes of its slot. *)
Theorem decode_tenths_round_trip (response : slice byte) (c : nat) (b0 b1 : byte) :
  len response = 64%nat →
  (c < 7)%nat →
  elems response !! (1 + 3 * c)%nat = Some b0 →
  elems response !! (2 + 3 * c)%nat = Some b1 →
  b0 ≠ x7f →
  ∃ sensors s,
    result (getSensorDataFromBytes response) = Normal sensors
    ∧ elems sensors !! c = Some (Some s)
    ∧ tenths (Temperature s) = Some (signed16BE b0 b1).
Proof.
  intros Hlen Hc H0 H1 Hne.
  destruct (lookup_lt_is_Some_2 (elems response) (3 + 3 * c)) as [b2 H2];
    [unfold len in Hlen; lia|].
  destruct (decode_present_reading response c b0 b1 b2) as (out & Hres & Hlk);
    [lia | done.. |].
  eexists out, _. split_and!; [done | done |]. cbn [Temperature].
  apply tenths_of_quotient, signed16BE_range.
Qed.

Lemma decode_tenths_round_trip_witness :
  len sample_response = 64%nat ∧ (2 < 7)%nat
  ∧ elems sample_response !! (1 + 3 * 2)%nat = Some x00
  ∧ elems sample_response !! (2 + 3 * 2)%nat = Some xd7
  ∧ x00 ≠ x7f
  ∧ ∃ sensors s,
      result (getSensorDataFromBytes sample_response) = Normal sensors
      ∧ elems sensors !! 2%nat = Some (Some s)
      ∧ tenths (Temperature s) = Some (signed16BE x00 xd7).
Proof.
  refine (conj eq_refl (conj _ (conj eq_refl (conj eq_refl (conj _ _)))));
    [lia | discriminate |].
  apply (decode_tenths_round_trip sample_response 2 x00 xd7);
    [reflexivity | lia | reflexivity | reflexivity | discriminate].
Defined.

(** X6: decoding loses nothing of a present slot: two slots without the
    sentinel, of any channels of any two responses, that decode to the
    same temperature and humidity hold the same three bytes. *)
Theorem decode_present_injective (response response' : slice byte) (c c' : nat)
    (b0 b1 b2 b0' b1' b2' : byte) :
  len response = 64%nat → len response' = 64%nat →
  (c < 7)%nat → (c' < 7)%nat →
  elems response !! (1 + 3 * c)%nat = Some b0 →
  elems response !! (2 + 3 * c)%nat = Some b1 →
  elems response !! (3 + 3 * c)%nat = Some b2 →
  elems response' !! (1 + 3 * c')%nat = Some b0' →
  elems response' !! (2 + 3 * c')%nat = Some b1' →
  elems response' !! (3 + 3 * c')%nat = Some b2' →
  b0 ≠ x7f → b0' ≠ x7f →
  ∃ sensors sensors' s s',
    result (getSensorDataFromBytes response) = Normal sensors
    ∧ result (getSensorDataFromBytes response') = Normal sensors'
    ∧ elems sensors !! c = Some (Some s)
    ∧ elems sensors' !! c' = Some (Some s')
    ∧ (Temperature s = Temperature s' → Humidity s = Humidity s' →
       b0 = b0' ∧ b1 = b1' ∧ b2 = b2').
Proof.
  intros Hlen Hlen' Hc Hc' H0 H1 H2 H0' H1' H2' Hne Hne'.
  destruct (decode_present_reading response c b0 b1 b2) as (out & R & L);
    [lia | done.. |].
  destruct (decode_present_reading response' c' b0' b1' b2') as (out' & R' & L');
    [lia | done.. |].
  eexists out, out', _, _. split_and!; [done.. |].
  cbn [Temperature Humidity]. intros HT HH.
  apply (f_equal tenths) in HT.
  rewrite !tenths_of_quotient in HT by apply signed16BE_range.
  injection HT as HT. apply signed16BE_inj in HT as [-> ->]. by subst.
Qed.

Lemma decode_present_injective_witness :
  len sample_response = 64%nat ∧ len moved_response = 64%nat
  ∧ (0 < 7)%nat ∧ (3 < 7)%nat
  ∧ elems sample_response !! (1 + 3 * 0)%nat = Some xff
  ∧ elems sample_response !! (2 + 3 * 0)%nat = Some xce
  ∧ elems sample_response !! (3 + 3 * 0)%nat = Some x28
  ∧ elems moved_response !! (1 + 3 * 3)%nat = Some xff
  ∧ elems moved_response !! (2 + 3 * 3)%nat = Some xce
  ∧ elems moved_response !! (3 + 3 * 3)%nat = Some x28
  ∧ xff ≠ x7f ∧ xff ≠ x7f
  ∧ ∃ sensors sensors' s s',
      result (getSensorDataFromBytes sample_response) = Normal sensors
      ∧ result (getSensorDataFromBytes moved_response) = Normal sensors'
      ∧ elems sensors !! 0%nat = Some (Some s)
      ∧ elems sensors' !! 3%nat = Some (Some s')
      ∧ (Temperature s = Temperature s' → Humidity s = Humidity s' →
         xff = xff ∧ xce = xce ∧ x28 = x28).
Proof.
  assert (0 < 7)%nat as Hc by lia. assert (3 < 7)%nat as Hc' by lia.
  assert (xff ≠ x7f) as Hne by discriminate.
  refine (conj eq_refl (conj eq_refl (conj Hc (conj Hc' (conj eq_refl
           (conj eq_refl (conj eq_refl (conj eq_refl (conj eq_refl
           (conj eq_refl (conj Hne (conj Hne _)))))))))))).
  exact (decode_present_injective sample_response moved_response 0 3
           xff xce x28 xff xce x28 eq_refl eq_refl Hc Hc'
           eq_refl eq_refl eq_refl eq_refl eq_refl eq_refl Hne Hne).
Defined.

(** ** More on the session *)

Lemma fill_lookup_data (data : list byte) (i : nat) :
  (i < length data)%nat → (i < 64)%nat →
  elems (fill (make 64 x00) data) !! i = data !! i.
Proof.
  intros Hi H64. unfold fill, len, make. cbn [elems].
  rewrite length_replicate, lookup_take_lt by done.
  by apply lookup_app_l.
Qed.

Lemma fill_lookup_zero (data : list byte) (i : nat) :
  (length data ≤ i < 64)%nat →
  elems (fill (make 64 x00) data) !! i = Some x00.
Proof.
  intros Hi. unfold fill, len, make. cbn [elems].
  rewrite length_replicate, lookup_take_lt by lia.
  rewrite lookup_app_r by lia. rewrite lookup_drop.
  apply lookup_replicate_2. lia.
Qed.

(** The seven readings of a buffer of at least 22 bytes. *)
Lemma decode_readings (response : slice byte) :
  (22 ≤ len response)%nat →
  ∃ sensors readings,
    result (getSensorDataFromBytes response) = Normal sensors
    ∧ elems sensors = Some <$> readings
    ∧ Channel <$> readings = [0; 1; 2; 3; 4; 5; 6].
Proof.
  intros Hlen.
  destruct (getSensorDataFromBytes_spec response Hlen)
    as (log & out & Hrun & _ & _ & Hl & Hin).
  assert (∀ c, (c < 7)%nat →
            ∃ s, elems out !! c = Some (Some s) ∧ Channel s = Z.of_nat c) as Hch.
  { intros c Hc. destruct (Hin c Hc) as (l & s & Hs & Hlk).
    destruct (sensorOfChannel_total response c) as (l' & s' & Hs' & _ & Hchan);
      [lia|].
    rewrite Hs in Hs'. injection Hs' as _ ->. eauto. }
  exists out. rewrite Hrun. cbn [result snd].
  destruct (Hch 0%nat) as (s0 & H0 & C0); [lia|].
  destruct (Hch 1%nat) as (s1 & H1 & C1); [lia|].
  destruct (Hch 2%nat) as (s2 & H2 & C2); [lia|].
  destruct (Hch 3%nat) as (s3 & H3 & C3); [lia|].
  destruct (Hch 4%nat) as (s4 & H4 & C4); [lia|].
  destruct (Hch 5%nat) as (s5 & H5 & C5); [lia|].
  destruct (Hch 6%nat) as (s6 & H6 & C6); [lia|].
  destruct (elems out) as [|e0 [|e1 [|e2 [|e3 [|e4 [|e5 [|e6 [|? ?]]]]]]]];
    try discriminate Hl.
  cbn in H0, H1, H2, H3, H4, H5, H6. simplify_eq.
  exists [s0; s1; s2; s3; s4; s5; s6]. split_and!; try done.
  cbn. by rewrite C0, C1, C2, C3, C4, C5, C6.
Qed.

Section SessionMore.
Context {W : Type} (h : Hid W).
Implicit Types (w : W) (info : DeviceInfo) (device : Device).

(** Running [m] and then [f] on its result is running the two in a row. *)
Lemma run_bind {A B} (m : prog A) (f : A → prog B) : ∀ locked w,
  run h (bind m f) locked w
  = run_then (run h m locked w) (fun a l w' => run h (f a) l w').
Proof.
  induction m as [a | p | c | o k IH]; intros locked w.
  - cbn. by destruct (run h (f a) locked w).
  - reflexivity.
  - reflexivity.
  - cbn [bind run]. destruct (perform h o locked w) as [[[r l'] w'] | s];
      [|reflexivity].
    rewrite IH. unfold run_then. cbn [end_of events usbLock world].
    by destruct (end_of (run h (k r) l' w')).
Qed.

(** X7: the order of the exchange. Whatever the device answers, whatever
    the mutex and the device list, the device operations of a call of
    [QueryDeviceSensors] are none, or the open alone, or open, write of the
    request frame, close, or open, write of the request frame, delay of
    500 ms, read of 64 bytes, close: no read without the write and the
    delay before it, no second write or read, and a close after every
    write. Only the full exchange returns readings, and then seven. *)
Theorem query_device_ops locked w deviceInfo :
  let r := run h (QueryDeviceSensors deviceInfo) locked w in
  (device_ops (events r) = []
   ∨ ∃ info rest device,
       deviceInfo = info :: rest ∧ locked = false
       ∧ (device_ops (events r) = [Open info]
          ∨ device_ops (events r)
            = [Open info; Write device frame; Close device]
          ∨ device_ops (events r)
            = [Open info; Write device frame; Sleep 500; Read device 64;
               Close device]))
  ∧ ∀ sensors,
      end_of r = Returns (sensors, None) →
      length (elems sensors) = 7%nat
      ∧ ∃ info device,
          device_ops (events r)
          = [Open info; Write device frame; Sleep 500; Read device 64;
             Close device].
Proof.
  intros r. subst r.
  destruct locked; [by split; [left|]|].
  destruct deviceInfo as [|info rest]; [by split; [left|]|].
  destruct (hid_open h info w) as [[device [e|]] w1] eqn:Hopen.
  { rewrite (run_QueryDeviceSensors_open_failed h _ _ _ _ _ _ Hopen).
    split; [|done]. right. exists info, rest, device. split_and!; try done.
    by left. }
  destruct (hid_write h device frame w1) as [[n [e|]] w2] eqn:Hwrite.
  { destruct (hid_close h device w2) as [cerr w3] eqn:Hclose.
    rewrite (run_QueryDeviceSensors_write_failed h _ _ _ _ _ _ _ _ _ _
               Hopen Hwrite Hclose).
    split; [|by destruct cerr].
    right. exists info, rest, device. split_and!; try done.
    right; left. by destruct cerr. }
  destruct (hid_read h device 64 w2) as [[[data m] [e|]] w3] eqn:Hread.
  { destruct (hid_close h device w3) as [cerr w4] eqn:Hclose.
    rewrite (run_QueryDeviceSensors_read_failed h _ _ _ _ _ _ _ _ _ _ _ _ _
               Hopen Hwrite Hread Hclose).
    split; [|by destruct cerr].
    right. exists info, rest, device. split_and!; try done.
    right; right. by destruct cerr. }
  destruct (hid_close h device w3) as [cerr w4] eqn:Hclose.
  destruct (decode_read_buffer data) as (sensors & Hdec & Hl).
  rewrite (run_QueryDeviceSensors_read h _ _ _ _ _ _ _ _ _ _ _ _ _
             Hopen Hwrite Hread Hclose Hdec).
  split.
  - right. exists info, rest, device. split_and!; try done.
    right; right. by destruct cerr.
  - destruct cerr; [done|]. cbn. intros sensors' [= <-].
    split; [done|]. by exists info, device.
Qed.

(** X8: the two deferred calls. Once the device has opened, and as long
    as its close reports no error, a call of [QueryDeviceSensors] on a free
    mutex returns, whatever the write and the read answer, and it ends
    with the close of the opened device followed by the unlock: one close,
    one unlock, the mutex free again. *)
Theorem query_closes_and_unlocks w info rest device w1 :
  hid_open h info w = ((device, None), w1) →
  (∀ w', (hid_close h device w').1 = None) →
  let r := run h (QueryDeviceSensors (info :: rest)) false w in
  (∃ res, end_of r = Returns res)
  ∧ usbLock r = false
  ∧ filter is_close (events r) = [Close device]
  ∧ filter is_unlock (events r) = [Unlock]
  ∧ ∃ before, events r = before ++ [Log LogClosing; Close device; Unlock].
Proof.
  intros Hopen Hclose r. subst r.
  destruct (hid_write h device frame w1) as [[n [e|]] w2] eqn:Hwrite.
  { pose proof (Hclose w2) as Hc.
    destruct (hid_close h device w2) as [cerr w3] eqn:Ec. cbn in Hc. subst cerr.
    rewrite (run_QueryDeviceSensors_write_failed h _ _ _ _ _ _ _ _ _ _
               Hopen Hwrite Ec).
    split_and!; [by eexists | done | done | done |].
    by exists (upto_write info rest device ++ [Log (LogWriteFailed e)]). }
  destruct (hid_read h device 64 w2) as [[[data m] [e|]] w3] eqn:Hread.
  { pose proof (Hclose w3) as Hc.
    destruct (hid_close h device w3) as [cerr w4] eqn:Ec. cbn in Hc. subst cerr.
    rewrite (run_QueryDeviceSensors_read_failed h _ _ _ _ _ _ _ _ _ _ _ _ _
               Hopen Hwrite Hread Ec).
    split_and!; [by eexists | done | done | done |].
    by exists (upto_write info rest device
                 ++ [Log (LogWrote n); Sleep 500; Read device 64;
                     Log (LogReadFailed e)]). }
  pose proof (Hclose w3) as Hc.
  destruct (hid_close h device w3) as [cerr w4] eqn:Ec. cbn in Hc. subst cerr.
  destruct (decode_read_buffer data) as (sensors & Hdec & Hl).
  rewrite (run_QueryDeviceSensors_read h _ _ _ _ _ _ _ _ _ _ _ _ _
             Hopen Hwrite Hread Ec Hdec).
  split_and!; [by eexists | done | done | done |].
  by exists (upto_write info rest device
               ++ [Log (LogWrote n); Sleep 500; Read device 64;
                   Log (LogReadResult m (elems (fill (make 64 x00) data)))]).
Qed.

(** X9: the count of a read is not looked at: after a read that reports
    no error the slots it did not reach are decoded from the zero bytes of
    the fresh buffer, as sensors at 0.0 degrees and 0 percent. A read that
    delivers nothing gives seven such readings. *)
Theorem short_read_zero_readings w info rest device w1 n w2 data m w3 c :
  hid_open h info w = ((device, None), w1) →
  hid_write h device frame w1 = ((n, None), w2) →
  hid_read h device 64 w2 = ((data, m, None), w3) →
  (∀ w', (hid_close h device w').1 = None) →
  (c < 7)%nat →
  (length data ≤ 1 + 3 * c)%nat →
  ∃ sensors,
    end_of (run h (QueryDeviceSensors (info :: rest)) false w)
    = Returns (sensors, None)
    ∧ elems sensors !! c
      = Some (Some {| Channel := Z.of_nat c; Temperature := f32_zero;
                      Humidity := x00; Absent := false |}).
Proof.
  intros Hopen Hwrite Hread Hclose Hc Hshort.
  pose proof (Hclose w3) as Hcl.
  destruct (hid_close h device w3) as [cerr w4] eqn:Ec. cbn in Hcl. subst cerr.
  destruct (decode_present_reading (fill (make 64 x00) data) c x00 x00 x00)
    as (sensors & Hdec & Hlk).
  - rewrite fill_len. cbn. lia.
  - done.
  - apply fill_lookup_zero. lia.
  - apply fill_lookup_zero. lia.
  - apply fill_lookup_zero. lia.
  - discriminate.
  - exists sensors.
    by rewrite (run_QueryDeviceSensors_read h _ _ _ _ _ _ _ _ _ _ _ _ _
                  Hopen Hwrite Hread Ec Hdec).
Qed.

(** X10: the readings are those of the bytes the read delivered: when
    it delivers at least 22 bytes and reports no error, the call returns
    the decoding of these bytes, whatever count the read reports, whatever
    follows the 22 bytes and whatever the write reported as its count. *)
Theorem query_returns_decoded_read w info rest device w1 n w2 data m w3 :
  hid_open h info w = ((device, None), w1) →
  hid_write h device frame w1 = ((n, None), w2) →
  hid_read h device 64 w2 = ((data, m, None), w3) →
  (∀ w', (hid_close h device w').1 = None) →
  (22 ≤ length data)%nat →
  ∃ sensors,
    result (getSensorDataFromBytes (Slice data [])) = Normal sensors
    ∧ end_of (run h (QueryDeviceSensors (info :: rest)) false w)
      = Returns (sensors, None).
Proof.
  intros Hopen Hwrite Hread Hclose Hlen.
  pose proof (Hclose w3) as Hcl.
  destruct (hid_close h device w3) as [cerr w4] eqn:Ec. cbn in Hcl. subst cerr.
  destruct (decode_read_buffer data) as (sensors & Hdec & _).
  exists sensors. split.
  - rewrite <- Hdec. apply decode_agree; [done | rewrite fill_len; cbn; lia |].
    intros o Ho. cbn [elems]. symmetry. apply fill_lookup_data; lia.
  - by rewrite (run_QueryDeviceSensors_read h _ _ _ _ _ _ _ _ _ _ _ _ _
                  Hopen Hwrite Hread Ec Hdec).
Qed.

(** The readings a query returns are seven non-nil ones, in channel
    order. *)
Lemma query_returned_readings locked w deviceInfo sensors :
  end_of (run h (QueryDeviceSensors deviceInfo) locked w)
  = Returns (sensors, None) →
  ∃ readings,
    elems sensors = Some <$> readings
    ∧ Channel <$> readings = [0; 1; 2; 3; 4; 5; 6].
Proof.
  destruct locked; [done|].
  destruct deviceInfo as [|info rest]; [done|].
  destruct (hid_open h info w) as [[device [e|]] w1] eqn:Hopen.
  { by rewrite (run_QueryDeviceSensors_open_failed h _ _ _ _ _ _ Hopen). }
  destruct (hid_write h device frame w1) as [[n [e|]] w2] eqn:Hwrite.
  { destruct (hid_close h device w2) as [cerr w3] eqn:Hclose.
    rewrite (run_QueryDeviceSensors_write_failed h _ _ _ _ _ _ _ _ _ _
               Hopen Hwrite Hclose).
    by destruct cerr. }
  destruct (hid_read h device 64 w2) as [[[data m] [e|]] w3] eqn:Hread.
  { destruct (hid_close h device w3) as [cerr w4] eqn:Hclose.
    rewrite (run_QueryDeviceSensors_read_failed h _ _ _ _ _ _ _ _ _ _ _ _ _
               Hopen Hwrite Hread Hclose).
    by destruct cerr. }
  destruct (hid_close h device w3) as [cerr w4] eqn:Hclose.
  destruct (decode_readings (fill (make 64 x00) data))
    as (out & readings & Hdec & He & Hch); [rewrite fill_len; cbn; lia|].
  rewrite (run_QueryDeviceSensors_read h _ _ _ _ _ _ _ _ _ _ _ _ _
             Hopen Hwrite Hread Hclose Hdec).
  destruct cerr; [done|]. cbn. intros [= <-]. by exists readings.
Qed.

(** Printing non-nil sensors: one line each, in order, and a return. *)
Lemma run_printSensors (readings : list Sensor) : ∀ locked w,
  run h (printSensors (Some <$> readings)) locked w
  = mkRun ((fun s => Log (line_of s)) <$> readings) locked w (Returns tt).
Proof.
  induction readings as [|s readings IH]; intros locked w; [reflexivity|].
  cbn [fmap list_fmap printSensors]. cbn [mbind prog_bind call bind run perform
    mutex_step respond]. rewrite IH. reflexivity.
Qed.

(** X12: [QueryAndPrintOnce] runs the query and then: after readings,
    prints one line per channel, in the order 0 to 6, each by the reading
    of its channel, dereferences no nil pointer and returns; after an
    error, logs that the query failed and exits with status 1 without a
    line for any sensor; and when the query itself does not return, adds
    nothing to it. *)
Theorem query_and_print_once locked w deviceInfo :
  let q := run h (QueryDeviceSensors deviceInfo) locked w in
  let p := run h (QueryAndPrintOnce deviceInfo) locked w in
  match end_of q with
  | Returns (sensors, None) =>
      ∃ readings,
        elems sensors = Some <$> readings
        ∧ Channel <$> readings = [0; 1; 2; 3; 4; 5; 6]
        ∧ events p = events q ++ ((fun s => Log (line_of s)) <$> readings)
        ∧ end_of p = Returns tt
        ∧ usbLock p = usbLock q
  | Returns (sensors, Some e) =>
      events p = events q ++ [Log LogQueryFailed] ∧ end_of p = Exits 1
  | PanicsWith x => events p = events q ∧ end_of p = PanicsWith x
  | Exits c => events p = events q ∧ end_of p = Exits c
  | Stops s => events p = events q ∧ end_of p = Stops s
  end.
Proof.
  intros q p. subst p. unfold QueryAndPrintOnce.
  change (run h (QueryDeviceSensors deviceInfo) locked w) with q.
  unfold mbind, prog_bind. rewrite run_bind. fold q.
  pose proof (query_returned_readings locked w deviceInfo) as Hq. fold q in Hq.
  unfold run_then. destruct (end_of q) as [[sensors [e|]] | x | c | s]; try done.
  destruct (Hq sensors eq_refl) as (readings & He & Hch).
  exists readings. rewrite He, run_printSensors. by split_and!.
Qed.

(** X13: what a returned boolean tells. When [CheckDeviceWithoutQuery],
    called on a free mutex, returns [b], the device list was not empty,
    its first device was asked to open, the close of what the open gave
    back reported no error, the mutex is free again, and [b] is [true]
    exactly when the open reported no error. *)
Theorem check_returned w deviceInfo b :
  end_of (run h (CheckDeviceWithoutQuery deviceInfo) false w) = Returns b →
  ∃ info rest device oerr w1 w2,
    deviceInfo = info :: rest
    ∧ hid_open h info w = ((device, oerr), w1)
    ∧ hid_close h device w1 = (None, w2)
    ∧ (b = true ↔ oerr = None)
    ∧ usbLock (run h (CheckDeviceWithoutQuery deviceInfo) false w) = false
    ∧ world (run h (CheckDeviceWithoutQuery deviceInfo) false w) = w2.
Proof.
  destruct deviceInfo as [|info rest]; [done|].
  destruct (hid_open h info w) as [[device oerr] w1] eqn:Hopen.
  destruct (hid_close h device w1) as [cerr w2] eqn:Hclose.
  rewrite (run_CheckDeviceWithoutQuery h _ _ _ _ _ _ _ _ Hopen Hclose).
  destruct cerr; [done|]. cbn. intros [= <-].
  exists info, rest, device, oerr, w1, w2. split_and!; try done.
  by destruct oerr.
Qed.

(** X11: an empty device list. Both functions take the mutex before
    they index the list: on an empty list they panic with index out of
    range, having touched no device, and leave the mutex locked, so that a
    caller that recovers from the panic finds every later call waiting. *)
Theorem empty_device_list_panics w :
  let q := run h (QueryDeviceSensors []) false w in
  let c := run h (CheckDeviceWithoutQuery []) false w in
  end_of q = PanicsWith (IndexOutOfRange 0 0)
  ∧ end_of c = PanicsWith (IndexOutOfRange 0 0)
  ∧ device_ops (events q) = [] ∧ device_ops (events c) = []
  ∧ usbLock q = true ∧ usbLock c = true
  ∧ ∀ deviceInfo,
      end_of (run h (QueryDeviceSensors deviceInfo) (usbLock q) (world q))
      = Stops Deadlock
      ∧ end_of (run h (CheckDeviceWithoutQuery deviceInfo) (usbLock c) (world c))
        = Stops Deadlock.
Proof. cbn. by split_and!. Qed.
End SessionMore.

Lemma check_returned_witness :
  let h := scripted (Some 1%nat, None) (64, None) ([], 0, None) None in
  end_of (run h (CheckDeviceWithoutQuery [hub]) false tt) = Returns true
  ∧ ∃ info rest device oerr w1 w2,
      [hub] = info :: rest
      ∧ hid_open h info tt = ((device, oerr), w1)
      ∧ hid_close h device w1 = (None, w2)
      ∧ (true = true ↔ oerr = None)
      ∧ usbLock (run h (CheckDeviceWithoutQuery [hub]) false tt) = false
      ∧ world (run h (CheckDeviceWithoutQuery [hub]) false tt) = w2.
Proof.
  intros h. split; [reflexivity|].
  exact (check_returned h tt [hub] true eq_refl).
Defined.

Lemma query_closes_and_unlocks_witness :
  let h := scripted (Some 1%nat, None) (64, None)
             ([], 0, Some (Err "hidapi: read failed")) None in
  let r := run h (QueryDeviceSensors [hub]) false tt in
  hid_open h hub tt = ((Some 1%nat, None), tt)
  ∧ (∀ w', (hid_close h (Some 1%nat) w').1 = None)
  ∧ (∃ res, end_of r = Returns res)
  ∧ usbLock r = false
  ∧ filter is_close (events r) = [Close (Some 1%nat)]
  ∧ filter is_unlock (events r) = [Unlock]
  ∧ ∃ before,
      events r = before ++ [Log LogClosing; Close (Some 1%nat); Unlock].
Proof.
  intros h r.
  refine (conj eq_refl (conj (fun _ => eq_refl) _)).
  exact (query_closes_and_unlocks h tt hub [] (Some 1%nat) tt
           eq_refl (fun _ => eq_refl)).
Defined.

Lemma short_read_zero_readings_witness :
  let h := scripted (Some 1%nat, None) (64, None)
             ([x00; xff; xce; x28], 4, None) None in
  hid_open h hub tt = ((Some 1%nat, None), tt)
  ∧ hid_write h (Some 1%nat) frame tt = ((64, None), tt)
  ∧ hid_read h (Some 1%nat) 64 tt = (([x00; xff; xce; x28], 4, None), tt)
  ∧ (∀ w', (hid_close h (Some 1%nat) w').1 = None)
  ∧ (1 < 7)%nat
  ∧ (length [x00; xff; xce; x28] ≤ 1 + 3 * 1)%nat
  ∧ ∃ sensors,
      end_of (run h (QueryDeviceSensors [hub]) false tt)
      = Returns (sensors, None)
      ∧ elems sensors !! 1%nat
        = Some (Some {| Channel := 1; Temperature := f32_zero;
                        Humidity := x00; Absent := false |}).
Proof.
  intros h.
  assert (1 < 7)%nat as Hc by lia.
  assert (length [x00; xff; xce; x28] ≤ 1 + 3 * 1)%nat as Hl by (cbn; lia).
  refine (conj eq_refl (conj eq_refl (conj eq_refl
           (conj (fun _ => eq_refl) (conj Hc (conj Hl _)))))).
  exact (short_read_zero_readings h tt hub [] (Some 1%nat) tt 64 tt
           [x00; xff; xce; x28] 4 tt 1 eq_refl eq_refl eq_refl
           (fun _ => eq_refl) Hc Hl).
Defined.

Lemma query_returns_decoded_read_witness :
  let data := take 22 (elems sample_response) in
  let h := scripted (Some 1%nat, None) (3, None) (data, 0, None) None in
  hid_open h hub tt = ((Some 1%nat, None), tt)
  ∧ hid_write h (Some 1%nat) frame tt = ((3, None), tt)
  ∧ hid_read h (Some 1%nat) 64 tt = ((data, 0, None), tt)
  ∧ (∀ w', (hid_close h (Some 1%nat) w').1 = None)
  ∧ (22 ≤ length data)%nat
  ∧ ∃ sensors,
      result (getSensorDataFromBytes (Slice data [])) = Normal sensors
      ∧ end_of (run h (QueryDeviceSensors [hub]) false tt)
        = Returns (sensors, None).
Proof.
  intros data h.
  assert (22 ≤ length data)%nat as Hl by (cbn; lia).
  refine (conj eq_refl (conj eq_refl (conj eq_refl
           (conj (fun _ => eq_refl) (conj Hl _))))).
  exact (query_returns_decoded_read h tt hub [] (Some 1%nat) tt 3 tt
           data 0 tt eq_refl eq_refl eq_refl (fun _ => eq_refl) Hl).
Defined.

(** ** More on several calls at once *)

Section Guard.
Implicit Types (gs : list goroutine) (phs : list phase)
  (hist : list (nat * op)).

Lemma holds_snoc i hist j o :
  holds i hist → o ≠ Lock → o ≠ Unlock → holds i (hist ++ [(j, o)]).
Proof.
  intros (a & b & -> & Hb) Hl Hu. exists a, (b ++ [(j, o)]). split.
  - by rewrite <- app_assoc.
  - intros j' o' Hin. apply elem_of_app in Hin as [Hin | Hin]; [by eapply Hb|].
    apply list_elem_of_singleton in Hin. by injection Hin as -> ->.
Qed.

Lemma holds_lock i hist : holds i (hist ++ [(i, Lock)]).
Proof.
  exists hist, []. split; [done|]. intros j o Hin.
  by apply not_elem_of_nil in Hin.
Qed.

(** A step keeps the invariant together with: whoever is in the phase
    [Holding] holds the mutex by the events so far. *)
Lemma step_guard p e p' hist phs :
  invariant p (owners hist) phs →
  (∀ i, phs !! i = Some Holding → holds i hist) →
  step p e p' →
  ∃ phs',
    invariant p' (owners (hist ++ [e])) phs'
    ∧ (∀ i, phs' !! i = Some Holding → holds i (hist ++ [e]))
    ∧ (device_op e.2 = true → holds e.1 hist).
Proof.
  intros Hinv Hh Hstep. destruct Hstep as [i A o k r l l' gs Hi _ Hm].
  destruct (Forall2_lookup_r _ _ _ _ _ (inv_follows _ _ _ Hinv) Hi)
    as (ph & Hph & Hf).
  cbn [follows_g] in Hf.
  assert (owners (hist ++ [(i, o)]) = owners hist ++ owners [(i, o)]) as Ho.
  { unfold owners. by rewrite filter_app, fmap_app. }
  rewrite Ho. cbn [fst snd].
  destruct ph, o; cbn in Hf; try done; cbn in Hm;
    unfold owners at 2; cbn; rewrite ?app_nil_r.
  - (* Before, Lock *)
    destruct l; [done|]. injection Hm as <-.
    eexists. split_and!; [eapply inv_lock; [done | done | apply Hf] | | done].
    intros j Hj. destruct (decide (j = i)) as [->|Hne]; [apply holds_lock|].
    rewrite list_lookup_insert_ne in Hj by done.
    pose proof (inv_locked _ _ _ Hinv j Hj) as Hl. cbn in Hl. discriminate Hl.
  - injection Hm as <-.
    eexists. split_and!; [eapply inv_stay; [done | done | apply Hf] | | done].
    intros j Hj. by apply holds_snoc; [apply Hh | |].
  - (* Holding, Unlock *)
    destruct l; [|done]. injection Hm as <-.
    eexists. split_and!; [eapply inv_unlock; [done | done | apply Hf] | | done].
    intros j Hj. destruct (decide (j = i)) as [->|Hne].
    + apply lookup_lt_Some in Hph.
      rewrite list_lookup_insert_eq in Hj by done. done.
    + rewrite list_lookup_insert_ne in Hj by done.
      by destruct Hne; apply (inv_one _ _ _ Hinv).
  - injection Hm as <-.
    eexists. split_and!; [eapply inv_device; [done | done | apply Hf] | | by auto].
    intros j Hj. by apply holds_snoc; [apply Hh | |].
  - injection Hm as <-.
    eexists. split_and!; [eapply inv_device; [done | done | apply Hf] | | by auto].
    intros j Hj. by apply holds_snoc; [apply Hh | |].
  - injection Hm as <-.
    eexists. split_and!; [eapply inv_device; [done | done | apply Hf] | | by auto].
    intros j Hj. by apply holds_snoc; [apply Hh | |].
  - injection Hm as <-.
    eexists. split_and!; [eapply inv_device; [done | done | apply Hf] | | by auto].
    intros j Hj. by apply holds_snoc; [apply Hh | |].
  - injection Hm as <-.
    eexists. split_and!; [eapply inv_device; [done | done | apply Hf] | | by auto].
    intros j Hj. by apply holds_snoc; [apply Hh | |].
  - injection Hm as <-.
    eexists. split_and!; [eapply inv_stay; [done | done | apply Hf] | | done].
    intros j Hj. by apply holds_snoc; [apply Hh | |].
  - injection Hm as <-.
    eexists. split_and!; [eapply inv_stay; [done | done | apply Hf] | | done].
    intros j Hj. by apply holds_snoc; [apply Hh | |].
Qed.

Lemma execution_guarded p tr p' : execution p tr p' →
  ∀ hist phs,
    invariant p (owners hist) phs →
    (∀ i, phs !! i = Some Holding → holds i hist) →
    ∀ tr1 i o tr2,
      tr = tr1 ++ (i, o) :: tr2 → device_op o = true → holds i (hist ++ tr1).
Proof.
  induction 1 as [p | p e p' tr p'' Hstep _ IH];
    intros hist phs Hinv Hh tr1 i o tr2 Heq Hdev.
  - by destruct tr1.
  - destruct (step_guard _ _ _ _ _ Hinv Hh Hstep) as (phs' & Hinv' & Hh' & Hnow).
    destruct tr1 as [|e' tr1]; cbn in Heq; injection Heq as -> ->.
    + rewrite app_nil_r. by apply Hnow.
    + replace (hist ++ e' :: tr1) with ((hist ++ [e']) ++ tr1)
        by (by rewrite <- app_assoc).
      by eapply IH.
Qed.
End Guard.

(** X14: no call goes round the mutex. Whatever calls of
    [QueryDeviceSensors] and [CheckDeviceWithoutQuery] run as goroutines,
    whatever the scheduler and the device do, every open, write, delay,
    read and close is made by a goroutine that has locked [usbLock] before
    and that nobody has unlocked, or locked again, since. *)
Theorem device_ops_under_lock (gs : list goroutine)
    (tr : list (nat * op)) (p' : process) :
  Forall is_call gs →
  execution (mkProcess false gs) tr p' →
  guarded tr.
Proof.
  intros Hcalls Hexec tr1 i o tr2 Heq Hdev.
  change (holds i ([] ++ tr1)).
  eapply execution_guarded; [exact Hexec | | | exact Heq | exact Hdev].
  - by apply invariant_init.
  - intros j Hj. apply lookup_replicate in Hj as [? _]. done.
Qed.

Lemma two_calls_execution :
  ∃ p', execution (mkProcess false two_calls) two_calls_trace p'.
Proof.
  eexists. unfold two_calls_trace, two_calls.
  perform_step 0%nat tt.
  perform_step 1%nat tt.
  perform_step 1%nat (Some 1%nat, @None error).
  perform_step 1%nat tt.
  perform_step 1%nat (@None error).
  perform_step 1%nat tt.
  perform_step 0%nat tt.
  perform_step 0%nat (Some 2%nat, @None error).
  perform_step 0%nat tt.
  perform_step 0%nat (-1, Some (Err "hidapi: write failed")).
  perform_step 0%nat tt.
  perform_step 0%nat tt.
  perform_step 0%nat (@None error).
  perform_step 0%nat tt.
  apply exec_done.
Qed.

Lemma device_ops_under_lock_witness :
  Forall is_call two_calls
  ∧ (∃ p', execution (mkProcess false two_calls) two_calls_trace p')
  ∧ guarded two_calls_trace.
Proof.
  assert (Forall is_call two_calls) as Hcalls.
  { repeat constructor; exists [hub]; [left | right]; reflexivity. }
  destruct two_calls_execution as [p' Hexec].
  split; [exact Hcalls|]. split; [by exists p'|].
  exact (device_ops_under_lock two_calls two_calls_trace p' Hcalls Hexec).
Defined.
